(** * videocraft: the Whisper daemon and its SSRF URL validator

    A shallow embedding of [scripts/url_validator.py] and
    [scripts/whisper_daemon.py].

    Python objects are modelled as follows.
    - A request or response dictionary is a [gmap string pyval].
    - An exception is a value of [exn]; a call that may raise returns
      [exn + A], with [inl] for the raised exception.
    - Code that mutates the daemon object, the file system, the logger or
      the network runs in the monad [M], which threads a [World] and keeps
      the world reached when an exception is raised.
    - What the program obtains from the Python runtime ([urlparse], the
      parsing and printing of IP addresses, DNS) is read from a record
      [Runtime]; what it obtains from the machine during one call (the
      clock, the engine, the file system, the download) from a record
      [Env].
    - Clock readings and time-outs are exact integers.
    - The address properties of [ipaddress] are those of CPython 3.11. *)

From Stdlib Require Import ZArith Lia.
From stdpp Require Import base option list gmap strings pretty.
From Equations Require Import Equations.

Local Open Scope string_scope.
Local Open Scope Z_scope.
Set Warnings "-register-all".

(** ** Exceptions *)

(** An [ipaddress.IPv4Address] or [ipaddress.IPv6Address] object: the
    integer [_ip] it holds. *)
Inductive ipaddr :=
| IPv4Address (_ip : Z)
| IPv6Address (_ip : Z).

(** [SSRFError]: one constructor for every [raise SSRFError(...)] of
    [url_validator.py], carrying what the message interpolates. *)
Inductive SSRFError :=
| EmptyURL
| MalformedURL (e : string)
| SchemeNotAllowed (scheme : string)
| MissingHost
| MissingHostname
| DangerousPort (port : Z)
| SystemPort (port : Z)
| NotInAllowlist (hostname : string)
| InvalidIP (e : string)
| LoopbackAddress (ip : ipaddr)
| LinkLocalAddress (ip : ipaddr)
| PrivateAddress (ip : ipaddr)
| MulticastAddress (ip : ipaddr)
| UnspecifiedAddress (ip : ipaddr)
| BroadcastAddress (ip : ipaddr)
| ResolvesToDangerous (hostname : string) (e : SSRFError)
| ResolutionFailed (hostname : string) (e : string)
| HostnameError (hostname : string) (e : string).

(** The error kinds of the specification (section 7) that the validator
    can produce. *)
Inductive ErrorKind :=
| Malformed | SchemeNotAllowedKind | PortNotAllowed | NotAllowlisted
| Loopback | LinkLocal | Private | Multicast | Unspecified | Broadcast
| ResolvesToUnsafeAddress | ResolutionFailure | OtherValidationError.

Definition kind (e : SSRFError) : ErrorKind :=
  match e with
  | EmptyURL | MalformedURL _ | MissingHost | MissingHostname => Malformed
  | SchemeNotAllowed _ => SchemeNotAllowedKind
  | DangerousPort _ | SystemPort _ => PortNotAllowed
  | NotInAllowlist _ => NotAllowlisted
  | InvalidIP _ => OtherValidationError
  | LoopbackAddress _ => Loopback
  | LinkLocalAddress _ => LinkLocal
  | PrivateAddress _ => Private
  | MulticastAddress _ => Multicast
  | UnspecifiedAddress _ => Unspecified
  | BroadcastAddress _ => Broadcast
  | ResolvesToDangerous _ _ => ResolvesToUnsafeAddress
  | ResolutionFailed _ _ => ResolutionFailure
  | HostnameError _ _ => OtherValidationError
  end.

(** Python exceptions, by the classes the two modules tell apart. *)
Inductive exn :=
| SSRF (e : SSRFError)
| ValueError (msg : string)
| OSError (msg : string)
| AttributeError (msg : string)
| GaiError (msg : string)
| RuntimeError (msg : string).

(** ** Python values carried by requests and responses *)

Inductive pyval :=
| PNone
| PBool (b : bool)
| PNum (n : Z)
| PStr (s : string)
| PList (l : list pyval)
| PDict (d : list (string * pyval)).

(** Truth value of an object, as [not x] tests it. *)
Definition truthy (v : pyval) : bool :=
  match v with
  | PNone => false
  | PBool b => b
  | PNum n => negb (n =? 0)
  | PStr s => negb (String.eqb s "")
  | PList l => match l with [] => false | _ => true end
  | PDict d => match d with [] => false | _ => true end
  end.

Definition type_name (v : pyval) : string :=
  match v with
  | PNone => "NoneType"
  | PBool _ => "bool"
  | PNum _ => "int"
  | PStr _ => "str"
  | PList _ => "list"
  | PDict _ => "dict"
  end.

(** ** What the program reads from its environment *)

(** Result of [urllib.parse.urlparse]: the attributes [validate_url]
    reads. Reading [.port] raises [ValueError] on a port that is not a
    number in range, hence the sum. *)
Record ParseResult := {
  scheme : string;
  netloc : string;
  hostname : option string;
  port : string + option Z
}.

Inductive family := AF_INET | AF_INET6 | AF_OTHER.

(** The transcription engine's handle and the payload made of its result. *)
Inductive Model := WhisperModel (name device : string).

Record Payload := {
  p_text : pyval;
  p_language : pyval;
  p_duration : pyval;
  p_segments : pyval;
  p_word_timestamps : pyval
}.

(** The Python runtime: [urllib.parse], [ipaddress], [socket], and the
    rendering of values and tracebacks. *)
Record Runtime := {
  urlparse : string → string + ParseResult;
  ip_address : string → string + ipaddr;
  ip_str : ipaddr → string;
  getaddrinfo : string → exn + list (family * string);
  (* str(list(ALLOWED_SCHEMES)) *)
  schemes_repr : string;
  (* str() of a request value that is not a string, None or a bool *)
  py_repr : pyval → string;
  format_exc : exn → string
}.

(** The machine the daemon runs on, during one call. *)
Record Env := {
  runtime : Runtime;
  (* time.time() *)
  time : Z;
  (* whisper and torch *)
  torch_present : bool;
  cuda_available : bool;
  load_model : string → string → exn + Model;
  empty_cache : option exn;
  model_transcribe : Model → string → pyval → pyval → exn + Payload;
  (* secrets, tempfile, os *)
  token_hex : string;
  gettempdir : string;
  temp_writable : bool;
  os_open : string → option string;
  os_unlink : string → option exn;
  (* urllib.request.urlopen, response.read and the write to the file *)
  download : string → Z → option exn
}.

(** ** [ipaddress]: the address properties the validator reads

    As in CPython 3.11's [ipaddress.py]. *)

Definition ALL_ONES (bits : Z) : Z := Z.ones bits.

(** [IPv4Network(...).netmask]: [_ALL_ONES ^ (_ALL_ONES >> prefixlen)]. *)
Definition netmask (bits prefixlen : Z) : Z :=
  Z.lxor (ALL_ONES bits) (Z.shiftr (ALL_ONES bits) prefixlen).

(** [address in network]:
    [other._ip & self.netmask._ip == self.network_address._ip]. *)
Definition in_network (bits : Z) (ip : Z) (net : Z * Z) : bool :=
  Z.land ip (netmask bits net.2) =? net.1.

Module IPv4Constants.
Definition _linklocal_network : Z * Z := (0xa9fe0000, 16).
Definition _loopback_network : Z * Z := (0x7f000000, 8).
Definition _multicast_network : Z * Z := (0xe0000000, 4).
Definition _private_networks : list (Z * Z) :=
  [ (0x00000000, 8); (0x0a000000, 8); (0x7f000000, 8); (0xa9fe0000, 16);
    (0xac100000, 12); (0xc0000000, 24); (0xc00000aa, 31); (0xc0000200, 24);
    (0xc0a80000, 16); (0xc6120000, 15); (0xc6336400, 24); (0xcb007100, 24);
    (0xf0000000, 4); (0xffffffff, 32) ].
Definition _private_networks_exceptions : list (Z * Z) :=
  [ (0xc0000009, 32); (0xc000000a, 32) ].
Definition _unspecified_address : Z := 0.
End IPv4Constants.

Module IPv6Constants.
Definition _linklocal_network : Z * Z :=
  (0xfe800000000000000000000000000000, 10).
Definition _multicast_network : Z * Z :=
  (0xff000000000000000000000000000000, 8).
Definition _private_networks : list (Z * Z) :=
  [ (0x1, 128); (0x0, 128); (0xffff00000000, 96);
    (0x0064ff9b000100000000000000000000, 48);
    (0x01000000000000000000000000000000, 64);
    (0x20010000000000000000000000000000, 23);
    (0x20010db8000000000000000000000000, 32);
    (0x20020000000000000000000000000000, 16);
    (0xfc000000000000000000000000000000, 7);
    (0xfe800000000000000000000000000000, 10) ].
Definition _private_networks_exceptions : list (Z * Z) :=
  [ (0x20010001000000000000000000000001, 128);
    (0x20010001000000000000000000000002, 128);
    (0x20010003000000000000000000000000, 32);
    (0x20010004011200000000000000000000, 48);
    (0x20010020000000000000000000000000, 28);
    (0x20010030000000000000000000000000, 28) ].
End IPv6Constants.

(** [IPv6Address.ipv4_mapped]. *)
Definition ipv4_mapped (ip : Z) : option Z :=
  if negb (Z.shiftr ip 32 =? 0xFFFF) then None
  else Some (Z.land ip 0xFFFFFFFF).

Definition is_private_v4 (ip : Z) : bool :=
  existsb (in_network 32 ip) IPv4Constants._private_networks
  && forallb (λ net, negb (in_network 32 ip net))
       IPv4Constants._private_networks_exceptions.

Definition is_loopback (ip : ipaddr) : bool :=
  match ip with
  | IPv4Address a => in_network 32 a IPv4Constants._loopback_network
  | IPv6Address a => a =? 1
  end.

Definition is_link_local (ip : ipaddr) : bool :=
  match ip with
  | IPv4Address a => in_network 32 a IPv4Constants._linklocal_network
  | IPv6Address a => in_network 128 a IPv6Constants._linklocal_network
  end.

Definition is_private (ip : ipaddr) : bool :=
  match ip with
  | IPv4Address a => is_private_v4 a
  | IPv6Address a =>
      match ipv4_mapped a with
      | Some m => is_private_v4 m
      | None =>
          existsb (in_network 128 a) IPv6Constants._private_networks
          && forallb (λ net, negb (in_network 128 a net))
               IPv6Constants._private_networks_exceptions
      end
  end.

Definition is_multicast (ip : ipaddr) : bool :=
  match ip with
  | IPv4Address a => in_network 32 a IPv4Constants._multicast_network
  | IPv6Address a => in_network 128 a IPv6Constants._multicast_network
  end.

Definition is_unspecified (ip : ipaddr) : bool :=
  match ip with
  | IPv4Address a => a =? IPv4Constants._unspecified_address
  | IPv6Address a => a =? 0
  end.

(** ** [URLValidator] *)

Record URLValidator := {
  allowed_domains : option (gset string);
  request_timeout : Z
}.

(** [URLValidator.__init__]: an empty or absent list leaves the allowlist
    unset. *)
Definition URLValidator_init (domains : option (list string)) (timeout : Z)
  : URLValidator :=
  {| allowed_domains :=
       match domains with
       | Some (d :: ds) => Some (list_to_set (d :: ds))
       | _ => None
       end;
     request_timeout := timeout |}.

Definition ALLOWED_SCHEMES : gset string := {[ "http"; "https" ]}.

Definition DANGEROUS_PORTS : gset Z :=
  {[ 22; 23; 25; 53; 110; 143; 993; 995; 1433; 3306; 5432; 6379; 11211;
     27017 ]}.

Definition SAFE_PORTS : gset Z := {[ 80; 443; 8080; 8443 ]}.

(** Sequencing of calls that may raise. *)
Definition exc_bind {A B} (c : exn + A) (k : A → exn + B) : exn + B :=
  match c with
  | inl e => inl e
  | inr a => k a
  end.

Notation "c ;;; k" := (exc_bind c (λ _, k))
  (at level 100, k at level 200, right associativity).

(** [str.lower] on the characters a scheme can hold. *)
Definition lower_ascii (c : Ascii.ascii) : Ascii.ascii :=
  let n := Ascii.N_of_ascii c in
  if ((65 <=? n) && (n <=? 90))%N then Ascii.ascii_of_N (n + 32) else c.

Fixpoint lower (s : string) : string :=
  match s with
  | EmptyString => EmptyString
  | String c r => String (lower_ascii c) (lower r)
  end.

(** [str.isspace] on one character, and [not s.strip()]. *)
Definition isspace (c : Ascii.ascii) : bool :=
  let n := Ascii.N_of_ascii c in
  (((9 <=? n) && (n <=? 13)) || ((28 <=? n) && (n <=? 32))
   || (n =? 133) || (n =? 160))%N.

Fixpoint blank (s : string) : bool :=
  match s with
  | EmptyString => true
  | String c r => isspace c && blank r
  end.

(** [s.endswith(suffix)]. *)
Definition endswith (s suffix : string) : bool :=
  String.prefix (String.rev suffix) (String.rev s).

Definition _validate_scheme (scheme : string) : exn + unit :=
  if bool_decide (lower scheme ∈ ALLOWED_SCHEMES) then inr ()
  else inl (SSRF (SchemeNotAllowed scheme)).

Definition _validate_port (port : option Z) (scheme : string) : exn + unit :=
  match port with
  | None => inr ()
  | Some port =>
      if bool_decide (port ∈ DANGEROUS_PORTS) then
        inl (SSRF (DangerousPort port))
      else if bool_decide (port ∉ SAFE_PORTS)
              && bool_decide (port ∉ ({[ 80; 443 ]} : gset Z)) then
        if port <? 1024 then inl (SSRF (SystemPort port)) else inr ()
      else inr ()
  end.

Definition _validate_domain_allowlist (self : URLValidator)
    (hostname : string) : exn + unit :=
  match allowed_domains self with
  | None => inr ()
  | Some allowed =>
      if bool_decide (hostname ∈ allowed) then inr ()
      else if existsb (λ allowed_domain,
                 endswith hostname ("." +:+ allowed_domain))
                (elements allowed)
      then inr ()
      else inl (SSRF (NotInAllowlist hostname))
  end.

Definition _is_ip_address (rt : Runtime) (hostname : string) : bool :=
  match ip_address rt hostname with
  | inl _ => false
  | inr _ => true
  end.

(** The checks [_validate_ip_address] applies to the address object,
    before the IPv4-mapped case. *)
Definition address_checks (ip : ipaddr) : exn + unit :=
  if is_loopback ip then inl (SSRF (LoopbackAddress ip))
  else if is_link_local ip then inl (SSRF (LinkLocalAddress ip))
  else if is_private ip then inl (SSRF (PrivateAddress ip))
  else if is_multicast ip then inl (SSRF (MulticastAddress ip))
  else if is_unspecified ip then inl (SSRF (UnspecifiedAddress ip))
  else match ip with
       | IPv4Address a =>
           (* str(ip) == "255.255.255.255" *)
           if a =? 0xffffffff then inl (SSRF (BroadcastAddress ip))
           else inr ()
       | IPv6Address _ => inr ()
       end.

Definition version (ip : ipaddr) : nat :=
  match ip with
  | IPv4Address _ => 4
  | IPv6Address _ => 6
  end.

#[local] Opaque address_checks ipv4_mapped.

(** [_validate_ip_address] on the parsed address. The recursive call is
    made on [str(ip.ipv4_mapped)], which parses back to that IPv4
    address. *)
Equations validate_ip (ip : ipaddr) : exn + unit by wf (version ip) lt :=
  validate_ip (IPv4Address a) := address_checks (IPv4Address a);
  validate_ip (IPv6Address a) :=
    address_checks (IPv6Address a) ;;;
    match ipv4_mapped a with
    | Some m => validate_ip (IPv4Address m)
    | None => inr ()
    end.

#[local] Transparent address_checks ipv4_mapped.

Definition _validate_ip_address (rt : Runtime) (ip_str : string)
  : exn + unit :=
  match ip_address rt ip_str with
  | inl e => inl (SSRF (InvalidIP e))
  | inr ip => validate_ip ip
  end.

(** ** Messages: [str(e)] *)

Definition quote (s : string) : string := "'" +:+ s +:+ "'".

Fixpoint SSRFError_str (rt : Runtime) (e : SSRFError) : string :=
  match e with
  | EmptyURL => "URL cannot be empty"
  | MalformedURL e => "Malformed URL: " +:+ e
  | SchemeNotAllowed scheme =>
      "URL scheme " +:+ quote scheme +:+ " not allowed. Only "
      +:+ schemes_repr rt +:+ " are permitted"
  | MissingHost => "Malformed URL: missing host"
  | MissingHostname => "Malformed URL: missing hostname"
  | DangerousPort port =>
      "Port " +:+ pretty port
      +:+ " not allowed - potentially dangerous service"
  | SystemPort port =>
      "Port " +:+ pretty port +:+ " not allowed - system port range"
  | NotInAllowlist hostname =>
      "Domain " +:+ quote hostname +:+ " not in allowlist"
  | InvalidIP e => "Invalid IP address: " +:+ e
  | LoopbackAddress ip =>
      "Localhost/loopback address not allowed: " +:+ ip_str rt ip
  | LinkLocalAddress ip =>
      "Link-local address not allowed: " +:+ ip_str rt ip
  | PrivateAddress ip => "Private IP address not allowed: " +:+ ip_str rt ip
  | MulticastAddress ip => "Multicast address not allowed: " +:+ ip_str rt ip
  | UnspecifiedAddress ip =>
      "Unspecified address not allowed: " +:+ ip_str rt ip
  | BroadcastAddress ip => "Broadcast address not allowed: " +:+ ip_str rt ip
  | ResolvesToDangerous hostname e =>
      "Hostname " +:+ quote hostname
      +:+ " resolves to private/dangerous IP: " +:+ SSRFError_str rt e
  | ResolutionFailed hostname e =>
      "Failed to resolve hostname " +:+ quote hostname +:+ ": " +:+ e
  | HostnameError hostname e =>
      "Error validating hostname " +:+ quote hostname +:+ ": " +:+ e
  end.

Definition exn_str (rt : Runtime) (e : exn) : string :=
  match e with
  | SSRF e => SSRFError_str rt e
  | ValueError msg | OSError msg | AttributeError msg | GaiError msg
  | RuntimeError msg => msg
  end.

(** ** Hostname resolution and [validate_url] *)

(** The loop over [addr_info] that fills [resolved_ips]; the set is
    walked in the order of first occurrence. *)
Definition resolved_ips (addr_info : list (family * string)) : list string :=
  remove_dups
    (omap (λ '(fam, ip), match fam with
                         | AF_INET | AF_INET6 => Some ip
                         | AF_OTHER => None
                         end) addr_info).

(** The loop that validates each resolved address; an [SSRFError] of
    [_validate_ip_address] is re-raised with the hostname. *)
Fixpoint validate_resolved (rt : Runtime) (hostname : string)
    (ips : list string) : exn + unit :=
  match ips with
  | [] => inr ()
  | ip :: rest =>
      match _validate_ip_address rt ip with
      | inl (SSRF e) => inl (SSRF (ResolvesToDangerous hostname e))
      | inl e => inl e
      | inr _ => validate_resolved rt hostname rest
      end
  end.

(** The outer [try]: [socket.gaierror] and every other [Exception],
    the re-raised [SSRFError] included, become a new [SSRFError]. *)
Definition _validate_hostname_resolution (rt : Runtime) (hostname : string)
  : exn + unit :=
  match exc_bind (getaddrinfo rt hostname)
          (λ addr_info,
             validate_resolved rt hostname (resolved_ips addr_info)) with
  | inr _ => inr ()
  | inl (GaiError e) => inl (SSRF (ResolutionFailed hostname e))
  | inl e => inl (SSRF (HostnameError hostname (exn_str rt e)))
  end.

Definition validate_url (rt : Runtime) (self : URLValidator) (url : string)
  : exn + unit :=
  if String.eqb url "" || blank url then inl (SSRF EmptyURL)
  else
    match urlparse rt url with
    | inl e => inl (SSRF (MalformedURL e))
    | inr parsed =>
        _validate_scheme (scheme parsed) ;;;
        if String.eqb (netloc parsed) "" then inl (SSRF MissingHost)
        else
          (* hostname = parsed.hostname; port = parsed.port *)
          match port parsed with
          | inl e => inl (ValueError e)
          | inr port =>
              match hostname parsed with
              | None | Some "" => inl (SSRF MissingHostname)
              | Some hostname =>
                  _validate_port port (scheme parsed) ;;;
                  _validate_domain_allowlist self hostname ;;;
                  if _is_ip_address rt hostname
                  then _validate_ip_address rt hostname
                  else _validate_hostname_resolution rt hostname
              end
          end
    end.

(** ** The daemon's state and the world it acts on *)

Record WhisperDaemon := {
  idle_timeout : Z;
  model_name : string;
  model : option Model;
  device : string;
  last_activity : Z;
  running : bool;
  shutdown_event : bool;
  url_validator : URLValidator
}.

Inductive level := DEBUG | INFO | ERROR.

(** [files] are the paths that exist; [created], [fetched] and [logs]
    record, latest first, the files the daemon created, the URLs it
    opened and the calls to its loggers. *)
Record World := {
  daemon : WhisperDaemon;
  files : gset string;
  created : list string;
  fetched : list string;
  logs : list (level * string)
}.

Definition set_daemon (f : WhisperDaemon → WhisperDaemon) (w : World)
  : World :=
  {| daemon := f (daemon w); files := files w; created := created w;
     fetched := fetched w; logs := logs w |}.

Definition set_files (f : gset string → gset string) (w : World) : World :=
  {| daemon := daemon w; files := f (files w); created := created w;
     fetched := fetched w; logs := logs w |}.

Definition add_created (path : string) (w : World) : World :=
  {| daemon := daemon w; files := files w; created := path :: created w;
     fetched := fetched w; logs := logs w |}.

Definition add_fetched (url : string) (w : World) : World :=
  {| daemon := daemon w; files := files w; created := created w;
     fetched := url :: fetched w; logs := logs w |}.

Definition add_log (l : level) (msg : string) (w : World) : World :=
  {| daemon := daemon w; files := files w; created := created w;
     fetched := fetched w; logs := (l, msg) :: logs w |}.

Definition with_last_activity (t : Z) (d : WhisperDaemon) : WhisperDaemon :=
  {| idle_timeout := idle_timeout d; model_name := model_name d;
     model := model d; device := device d; last_activity := t;
     running := running d; shutdown_event := shutdown_event d;
     url_validator := url_validator d |}.

Definition with_model (m : option Model) (d : WhisperDaemon)
  : WhisperDaemon :=
  {| idle_timeout := idle_timeout d; model_name := model_name d;
     model := m; device := device d; last_activity := last_activity d;
     running := running d; shutdown_event := shutdown_event d;
     url_validator := url_validator d |}.

Definition with_running (b : bool) (d : WhisperDaemon) : WhisperDaemon :=
  {| idle_timeout := idle_timeout d; model_name := model_name d;
     model := model d; device := device d; last_activity := last_activity d;
     running := b; shutdown_event := shutdown_event d;
     url_validator := url_validator d |}.

Definition with_shutdown_event (b : bool) (d : WhisperDaemon)
  : WhisperDaemon :=
  {| idle_timeout := idle_timeout d; model_name := model_name d;
     model := model d; device := device d; last_activity := last_activity d;
     running := running d; shutdown_event := b;
     url_validator := url_validator d |}.

(** Computations on the world that may raise. *)
Definition M (A : Type) : Type := World → (exn + A) * World.

Definition ret {A} (a : A) : M A := λ w, (inr a, w).

Definition raise {A} (e : exn) : M A := λ w, (inl e, w).

Definition bind {A B} (c : M A) (k : A → M B) : M B :=
  λ w, match c w with
       | (inl e, w') => (inl e, w')
       | (inr a, w') => k a w'
       end.

Definition lift {A} (c : exn + A) : M A := λ w, (c, w).

Definition modify (f : World → World) : M unit := λ w, (inr (), f w).

(** [try: body finally: cleanup], for a cleanup that does not raise. *)
Definition finally {A} (body : M A) (cleanup : World → World) : M A :=
  λ w, let '(r, w') := body w in (r, cleanup w').

Notation "'let!' x ':=' c 'in' k" := (bind c (λ x, k))
  (at level 10, x name, c at level 100, k at level 200).
Notation "c >>> k" := (bind c (λ _, k))
  (at level 100, k at level 200, right associativity).

(** ** [WhisperDaemon] *)


Definition _load_model (env : Env) : M unit :=
  λ w,
    match model (daemon w) with
    | Some _ => (inr (), w)
    | None =>
        match load_model env (model_name (daemon w)) (device (daemon w)) with
        | inr m => (inr (), set_daemon (with_model (Some m)) w)
        | inl e =>
            (inl e,
             add_log ERROR
               ("Failed to load model " +:+ model_name (daemon w) +:+ ": "
                +:+ exn_str (runtime env) e) w)
        end
    end.

Definition _unload_model (env : Env) : M unit :=
  λ w,
    match model (daemon w) with
    | None => (inr (), w)
    | Some _ =>
        let w' := set_daemon (with_model None) w in
        if torch_present env && cuda_available env then
          match empty_cache env with
          | Some e => (inl e, w')
          | None => (inr (), w')
          end
        else (inr (), w')
    end.

Definition _shutdown (env : Env) : M unit :=
  modify (set_daemon (with_running false)) >>>
  _unload_model env >>>
  modify (set_daemon (with_shutdown_event true)).

(** One turn of the loop of [_idle_checker], [now] being the clock read
    after the sleep: [true] when it shut the daemon down and left the loop. *)
Definition idle_check (env : Env) (now : Z) : M bool :=
  λ w,
    if idle_timeout (daemon w) <? now - last_activity (daemon w) then
      (_shutdown env >>> ret true) w
    else (inr false, w).

(** [_idle_checker], run on the clock readings of its successive
    wake-ups, with no request in between. *)
Fixpoint _idle_checker (env : Env) (clock : list Z) : M unit :=
  λ w,
    match clock with
    | [] => (inr (), w)
    | now :: later =>
        if running (daemon w) then
          match idle_check env now w with
          | (inr false, w') => _idle_checker env later w'
          | (inr true, w') => (inr (), w')
          | (inl e, w') => (inl e, w')
          end
        else (inr (), w)
    end.

(** [os.path.join(temp_dir, name)]. *)
Definition path_join (dir name : string) : string :=
  if String.eqb dir "" then name
  else if endswith dir "/" then dir +:+ name
  else dir +:+ "/" +:+ name.

Definition temp_name (env : Env) : string :=
  "whisper_" +:+ token_hex env +:+ ".wav".

Definition _create_secure_temp_file (env : Env) : M string :=
  λ w,
    let temp_dir := gettempdir env in
    if negb (temp_writable env) then
      (inl (OSError ("Temp directory not writable: " +:+ temp_dir)), w)
    else
      let temp_path := path_join temp_dir (temp_name env) in
      (* os.open(temp_path, O_CREAT | O_WRONLY | O_EXCL, 0o600) *)
      let failure :=
        if bool_decide (temp_path ∈ files w)
        then Some ("[Errno 17] File exists: " +:+ quote temp_path)
        else os_open env temp_path in
      match failure with
      | Some e =>
          (inl (OSError e),
           add_log ERROR ("Failed to create secure temp file: " +:+ e) w)
      | None =>
          (inr temp_path,
           add_log DEBUG ("Created secure temp file: " +:+ temp_name env)
             (add_created temp_path (set_files (union {[ temp_path ]}) w)))
      end.

(** [str(x)] of a request value, inside an f-string. *)
Definition format_value (rt : Runtime) (v : pyval) : string :=
  match v with
  | PStr s => s
  | PNone => "None"
  | PBool true => "True"
  | PBool false => "False"
  | _ => py_repr rt v
  end.

(** [x == "..."] for a request value. *)
Definition is_str (v : pyval) (s : string) : bool :=
  match v with
  | PStr t => String.eqb t s
  | _ => false
  end.

(** The [finally] block of [transcribe_audio]. *)
Definition cleanup (env : Env) (temp_path : string) (w : World) : World :=
  if bool_decide (temp_path ∈ files w) then
    match os_unlink env temp_path with
    | None =>
        add_log DEBUG ("Cleaned up temp file: " +:+ temp_name env)
          (set_files (λ fs, fs ∖ {[ temp_path ]}) w)
    | Some cleanup_error =>
        add_log ERROR
          ("SECURITY: Failed to cleanup temp file " +:+ temp_path +:+ ": "
           +:+ exn_str (runtime env) cleanup_error) w
    end
  else w.

(** The download and the engine call, inside the inner [try]. *)
Definition fetch_and_transcribe (env : Env) (audio_url : string)
    (language word_timestamps : pyval) (temp_path : string) : M Payload :=
  λ w,
    let w := add_fetched audio_url w in
    match download env audio_url
            (request_timeout (url_validator (daemon w))) with
    | Some e => (inl e, w)
    | None =>
        let w := set_files (union {[ temp_path ]}) w in
        let w :=
          add_log INFO
            ("Processing audio file: " +:+ audio_url +:+ " -> "
             +:+ temp_name env) w in
        match model (daemon w) with
        | None =>
            (inl (AttributeError
                    "'NoneType' object has no attribute 'transcribe'"), w)
        | Some m =>
            (model_transcribe env m temp_path
               (if is_str language "auto" then PNone else language)
               word_timestamps, w)
        end
    end.

Definition request_get (request : gmap string pyval) (key : string)
    (default : pyval) : pyval :=
  match request !! key with
  | Some v => v
  | None => default
  end.

(** The outer [try] block of [transcribe_audio]. *)
Definition transcribe_body (env : Env) (request : gmap string pyval)
  : M (gmap string pyval) :=
  modify (set_daemon (with_last_activity (time env))) >>>
  _load_model env >>>
  let audio_url := request_get request "url" PNone in
  let language := request_get request "language" (PStr "auto") in
  let word_timestamps := request_get request "word_timestamps" (PBool true) in
  if negb (truthy audio_url) then
    raise (ValueError "Missing 'url' parameter")
  else
    match audio_url with
    | PStr audio_url =>
        (λ w,
           match validate_url (runtime env) (url_validator (daemon w))
                   audio_url with
           | inr _ =>
               (inr (),
                add_log INFO ("URL validation passed for: " +:+ audio_url) w)
           | inl (SSRF e) =>
               (inl (ValueError
                       ("URL validation failed: "
                        +:+ SSRFError_str (runtime env) e)),
                add_log ERROR
                  ("SECURITY: SSRF attempt blocked for URL: " +:+ audio_url
                   +:+ " - " +:+ SSRFError_str (runtime env) e) w)
           | inl e => (inl e, w)
           end) >>>
        let! temp_path := _create_secure_temp_file env in
        let! result :=
          finally
            (fetch_and_transcribe env audio_url language word_timestamps
               temp_path)
            (cleanup env temp_path) in
        ret (<[ "success" := PBool true ]>
             (<[ "text" := p_text result ]>
              (<[ "language" := p_language result ]>
               (<[ "duration" := p_duration result ]>
                (<[ "segments" := p_segments result ]>
                 (<[ "word_timestamps" := p_word_timestamps result ]> ∅))))))
    | _ =>
        (* validate_url calls url.strip() *)
        raise (AttributeError
                 (quote (type_name audio_url)
                  +:+ " object has no attribute 'strip'"))
    end.

Definition failure_response (rt : Runtime) (e : exn) : gmap string pyval :=
  <[ "success" := PBool false ]>
  (<[ "error" := PStr (exn_str rt e) ]>
   (<[ "traceback" := PStr (format_exc rt e) ]> ∅)).

Definition transcribe_audio (env : Env) (request : gmap string pyval)
  : M (gmap string pyval) :=
  λ w,
    match transcribe_body env request w with
    | (inr response, w') => (inr response, w')
    | (inl e, w') =>
        (inr (failure_response (runtime env) e),
         add_log ERROR
           ("Transcription failed: " +:+ exn_str (runtime env) e) w')
    end.

(** The [try] block of [handle_request], up to the insertion of the id. *)
Definition dispatch (env : Env) (request : gmap string pyval)
  : M (gmap string pyval) :=
  let action := request_get request "action" PNone in
  if is_str action "transcribe" then transcribe_audio env request
  else if is_str action "ping" then
    ret (<[ "success" := PBool true ]> (<[ "message" := PStr "pong" ]> ∅))
  else if is_str action "status" then
    λ w,
      (inr (<[ "success" := PBool true ]>
            (<[ "model" := PStr (model_name (daemon w)) ]>
             (<[ "device" := PStr (device (daemon w)) ]>
              (<[ "model_loaded" :=
                    PBool (bool_decide (model (daemon w) ≠ None)) ]>
               (<[ "last_activity" := PNum (last_activity (daemon w)) ]>
                (<[ "idle_timeout" := PNum (idle_timeout (daemon w)) ]>
                 ∅)))))), w)
  else if is_str action "shutdown" then
    _shutdown env >>>
    ret (<[ "success" := PBool true ]>
         (<[ "message" := PStr "shutting down" ]> ∅))
  else
    ret (<[ "success" := PBool false ]>
         (<[ "error" :=
               PStr ("Unknown action: "
                     +:+ format_value (runtime env) action) ]>
          ∅)).

Definition handle_request (env : Env) (request : gmap string pyval)
    (w : World) : gmap string pyval * World :=
  let request_id := request_get request "id" (PStr "unknown") in
  match dispatch env request w with
  | (inr response, w') => (<[ "id" := request_id ]> response, w')
  | (inl e, w') =>
      (<[ "id" := request_id ]> (failure_response (runtime env) e),
       add_log ERROR
         ("Request handling failed: " +:+ exn_str (runtime env) e) w')
  end.

(** [env] with another outcome of [os.unlink]. *)
Definition with_os_unlink (unlink : string → option exn) (env : Env) : Env :=
  {| runtime := runtime env; time := time env;
     torch_present := torch_present env;
     cuda_available := cuda_available env; load_model := load_model env;
     empty_cache := empty_cache env;
     model_transcribe := model_transcribe env; token_hex := token_hex env;
     gettempdir := gettempdir env; temp_writable := temp_writable env;
     os_open := os_open env; os_unlink := unlink;
     download := download env |}.

(** ** A concrete environment

    The parses are those CPython gives for the URLs and addresses used in
    the examples; any other text is taken not to parse. *)
Module Sample.

Definition parsed (scheme netloc : string) (hostname : option string)
    (port : option Z) : string + ParseResult :=
  inr {| scheme := scheme; netloc := netloc; hostname := hostname;
         port := inr port |}.

Definition the_urlparse (url : string) : string + ParseResult :=
  if String.eqb url "http://[::ffff:127.0.0.1]/x" then
    parsed "http" "[::ffff:127.0.0.1]" (Some "::ffff:127.0.0.1") None
  else if String.eqb url "http://127.0.0.1/x" then
    parsed "http" "127.0.0.1" (Some "127.0.0.1") None
  else if String.eqb url "file:///etc/passwd" then
    parsed "file" "" None None
  else if String.eqb url "http:///missing-host" then
    parsed "http" "" None None
  else if String.eqb url "http://:80/x" then
    parsed "http" ":80" None (Some 80)
  else if String.eqb url "http://example.com:22/audio.wav" then
    parsed "http" "example.com:22" (Some "example.com") (Some 22)
  else if String.eqb url "https://example.com/audio.wav" then
    parsed "https" "example.com" (Some "example.com") None
  else inl "Invalid URL".

Definition the_ip_address (s : string) : string + ipaddr :=
  if String.eqb s "::ffff:127.0.0.1" then inr (IPv6Address 0xffff7f000001)
  else if String.eqb s "127.0.0.1" then inr (IPv4Address 0x7f000001)
  else if String.eqb s "93.184.216.34" then inr (IPv4Address 0x5db8d822)
  else inl (quote s +:+ " does not appear to be an IPv4 or IPv6 address").

Definition the_ip_str (ip : ipaddr) : string :=
  match ip with
  | IPv4Address 0x7f000001 => "127.0.0.1"
  | IPv4Address 0x5db8d822 => "93.184.216.34"
  | IPv6Address 0xffff7f000001 => "::ffff:7f00:1"
  | IPv4Address n | IPv6Address n => pretty n
  end.

Definition the_getaddrinfo (hostname : string)
  : exn + list (family * string) :=
  if String.eqb hostname "example.com"
  then inr [ (AF_INET, "93.184.216.34") ]
  else inl (GaiError "[Errno -2] Name or service not known").

Definition payload : Payload :=
  {| p_text := PStr "hello"; p_language := PStr "en"; p_duration := PNum 2;
     p_segments := PList []; p_word_timestamps := PList [] |}.

Definition the_runtime : Runtime :=
  {| urlparse := the_urlparse;
     ip_address := the_ip_address;
     ip_str := the_ip_str;
     getaddrinfo := the_getaddrinfo;
     schemes_repr := "['http', 'https']";
     py_repr := λ _, "<object>";
     format_exc := λ e, "Traceback (most recent call last): ..." |}.

(** A machine with a GPU whose cache release fails iff [cache_error],
    on which the deletion of a file fails iff [unlink_error] and the
    download fails iff [download_error], at clock reading [now]. *)
Definition env (now : Z) (cache_error unlink_error download_error : bool)
  : Env :=
  {| runtime := the_runtime;
     time := now;
     torch_present := true;
     cuda_available := true;
     load_model := λ name device, inr (WhisperModel name device);
     empty_cache :=
       if cache_error then Some (RuntimeError "CUDA error") else None;
     model_transcribe := λ _ _ _ _, inr payload;
     token_hex := "0123456789abcdef0123456789abcdef";
     gettempdir := "/tmp";
     temp_writable := true;
     os_open := λ _, None;
     os_unlink := λ _,
       if unlink_error
       then Some (OSError "[Errno 13] Permission denied")
       else None;
     download := λ _ _,
       if download_error
       then Some (OSError "<urlopen error timed out>")
       else None |}.

(** The daemon as [__init__] leaves it at clock reading 100, with the
    default idle timeout and model, and an empty temporary directory. *)
Definition world : World :=
  {| daemon :=
       {| idle_timeout := 300; model_name := "base";
          model := Some (WhisperModel "base" "cuda"); device := "cuda";
          last_activity := 100; running := true; shutdown_event := false;
          url_validator := URLValidator_init None 30 |};
     files := ∅; created := []; fetched := []; logs := [] |}.

Definition request (fields : list (string * pyval)) : gmap string pyval :=
  list_to_map fields.

End Sample.

(** ** The rest of the two modules *)

(** [validate_url_safe]: [True], [False], or the exception of
    [validate_url] that is not an [SSRFError]. *)
Definition validate_url_safe (rt : Runtime) (url : string)
    (domains : option (list string)) (timeout : Z) : exn + bool :=
  match validate_url rt (URLValidator_init domains timeout) url with
  | inr _ => inr true
  | inl (SSRF _) => inr false
  | inl e => inl e
  end.


(** [str.strip]. *)
Fixpoint lstrip (s : string) : string :=
  match s with
  | EmptyString => EmptyString
  | String c r => if isspace c then lstrip r else s
  end.

Definition strip (s : string) : string :=
  String.rev (lstrip (String.rev (lstrip s))).

(** The dictionary [json.loads] builds from the members of an object: a
    repeated key keeps its last value. *)
Definition dict_of_items (items : list (string * pyval)) : gmap string pyval :=
  foldl (λ m kv, <[ kv.1 := kv.2 ]> m) ∅ items.

(** [handle_request] on whatever [json.loads] returned: anything but an
    object has no [get]. *)
Definition handle_loaded (env : Env) (request : pyval)
  : M (gmap string pyval) :=
  match request with
  | PDict items =>
      λ w, let '(response, w') :=
             handle_request env (dict_of_items items) w in
           (inr response, w')
  | _ =>
      raise (AttributeError
               (quote (type_name request)
                +:+ " object has no attribute 'get'"))
  end.

Definition invalid_json_response (e : string) : gmap string pyval :=
  <[ "success" := PBool false ]>
  (<[ "error" := PStr ("Invalid JSON: " +:+ e) ]> ∅).

(** The loop of [run]. The input is the lines [readline] returns, each
    with the machine as it is while the line is handled; the end of the
    list, like an empty line read, is the end of the stream. The result
    holds the responses printed, in order. [json_loads] is [json.loads],
    [inl] standing for [JSONDecodeError]. *)
Fixpoint run_loop (json_loads : string → string + pyval)
    (input : list (Env * string)) (w : World)
  : list (gmap string pyval) * World :=
  match input with
  | [] => ([], w)
  | (env, line) :: rest =>
      if negb (running (daemon w)) then ([], w)
      else if String.eqb line "" then ([], w)
      else
        let line := strip line in
        if String.eqb line "" then run_loop json_loads rest w
        else
          match json_loads line with
          | inl e =>
              let '(out, w') := run_loop json_loads rest w in
              (invalid_json_response e :: out, w')
          | inr request =>
              let '(r, w1) := handle_loaded env request w in
              let response :=
                match r with
                | inr response => response
                | inl e => failure_response (runtime env) e
                end in
              let '(out, w') := run_loop json_loads rest w1 in
              (response :: out, w')
          end
  end.

(** [run]: the loop, then the [_shutdown] of its [finally], on the
    machine [at_exit]. The redirection of stderr is left out. *)
Definition run (json_loads : string → string + pyval)
    (input : list (Env * string)) (at_exit : Env) (w : World)
  : list (gmap string pyval) * (exn + unit) * World :=
  let '(out, w') := run_loop json_loads input w in
  let '(r, w'') := _shutdown at_exit w' in
  (out, r, w'').

(** ** More of the concrete environment *)

Module Sample2.

(** The parser of [Sample], knowing one URL more: [urlparse] accepts it,
    and reading [parsed.port] raises. *)
Definition the_urlparse (url : string) : string + ParseResult :=
  if String.eqb url "http://example.com:99999/x" then
    inr {| scheme := "http"; netloc := "example.com:99999";
           hostname := Some "example.com";
           port := inl "Port out of range 0-65535" |}
  else Sample.the_urlparse url.

(** A resolver that knows one name more, with a public and a loopback
    address. *)
Definition the_getaddrinfo (hostname : string)
  : exn + list (family * string) :=
  if String.eqb hostname "rebind.example.com"
  then inr [ (AF_INET, "93.184.216.34"); (AF_INET, "127.0.0.1") ]
  else Sample.the_getaddrinfo hostname.

Definition the_runtime : Runtime :=
  {| urlparse := the_urlparse;
     ip_address := Sample.the_ip_address;
     ip_str := Sample.the_ip_str;
     getaddrinfo := the_getaddrinfo;
     schemes_repr := schemes_repr Sample.the_runtime;
     py_repr := py_repr Sample.the_runtime;
     format_exc := format_exc Sample.the_runtime |}.

(** The double quote and the line feed. *)
Definition dq : string := String (Ascii.ascii_of_nat 34) "".
Definition lf : string := String (Ascii.ascii_of_nat 10) "".

(** Three lines as [readline] returns them: a shutdown request, a JSON
    text that is no object, and a text that is no JSON. *)
Definition shutdown_line : string :=
  "{" +:+ dq +:+ "id" +:+ dq +:+ ": 7, " +:+ dq +:+ "action" +:+ dq +:+ ": "
  +:+ dq +:+ "shutdown" +:+ dq +:+ "}" +:+ lf.

Definition list_line : string := "[1, 2]" +:+ lf.

Definition garbage_line : string := "not json" +:+ lf.

(** [json.loads] on these lines, stripped. *)
Definition the_json_loads (s : string) : string + pyval :=
  if String.eqb s (strip shutdown_line) then
    inr (PDict [ ("id", PNum 7); ("action", PStr "shutdown") ])
  else if String.eqb s "[1, 2]" then inr (PList [ PNum 1; PNum 2 ])
  else inl "Expecting value: line 1 column 1 (char 0)".

End Sample2.

(** * Properties *)

Ltac run :=
  unfold bind, ret, raise, modify, lift, finally in *; simpl in *.

(** ** Request identifiers *)

Lemma handle_request_id env request w :
  (handle_request env request w).1 !! "id"
  = Some (request_get request "id" (PStr "unknown")).
Proof.
  unfold handle_request.
  destruct (dispatch env request w) as [[e | response] w']; simpl;
    apply lookup_insert_eq.
Qed.

(** The insertion of the id, whatever the dispatch did: a response or an
    exception of any class. *)
Lemma id_inserted_on_any_outcome env request w :
  (∀ response w', dispatch env request w = (inr response, w') →
     handle_request env request w
     = (<[ "id" := request_get request "id" (PStr "unknown") ]> response, w'))
  ∧ (∀ e w', dispatch env request w = (inl e, w') →
     (handle_request env request w).1
     = <[ "id" := request_get request "id" (PStr "unknown") ]>
         (failure_response (runtime env) e)).
Proof.
  split; intros ? ? H; unfold handle_request; rewrite H; reflexivity.
Qed.

(** ** The idle clock *)

Lemma _load_model_frame env w :
  let w' := (_load_model env w).2 in
  last_activity (daemon w') = last_activity (daemon w)
  ∧ url_validator (daemon w') = url_validator (daemon w)
  ∧ files w' = files w ∧ created w' = created w ∧ fetched w' = fetched w.
Proof.
  unfold _load_model. destruct (model (daemon w)); simpl; [done |].
  destruct (load_model env _ _); simpl; done.
Qed.

Lemma _create_secure_temp_file_daemon env w :
  daemon (_create_secure_temp_file env w).2 = daemon w.
Proof.
  unfold _create_secure_temp_file.
  destruct (temp_writable env); simpl; [| done].
  case_bool_decide; simpl; [done |].
  destruct (os_open env _); done.
Qed.

Lemma cleanup_daemon env temp_path w :
  daemon (cleanup env temp_path w) = daemon w.
Proof.
  unfold cleanup. case_bool_decide; [| done].
  destruct (os_unlink env temp_path); done.
Qed.

Lemma fetch_and_transcribe_daemon env url language wts temp_path w :
  daemon (fetch_and_transcribe env url language wts temp_path w).2 = daemon w.
Proof.
  unfold fetch_and_transcribe; simpl.
  destruct (download env _ _); simpl; [done |].
  destruct (model (daemon w)); done.
Qed.

Lemma transcribe_body_last_activity env request w :
  last_activity (daemon (transcribe_body env request w).2) = time env.
Proof.
  unfold transcribe_body. run.
  pose proof (_load_model_frame env
                (set_daemon (with_last_activity (time env)) w)) as Hload.
  simpl in Hload. destruct Hload as (Hla & _).
  destruct (_load_model env _) as [[e | []] w1]; simpl in *; [done |].
  destruct (truthy _); simpl; [| done].
  destruct (request_get request "url" PNone) as [| | | u | |]; simpl; try done.
  destruct (validate_url _ _ u) as [[] | []]; simpl; try done.
  pose proof (_create_secure_temp_file_daemon env
                (add_log INFO ("URL validation passed for: " +:+ u) w1)) as Hc.
  destruct (_create_secure_temp_file env _) as [[e | temp_path] w2];
    simpl in *; [by rewrite Hc |].
  pose proof (fetch_and_transcribe_daemon env u
                (request_get request "language" (PStr "auto"))
                (request_get request "word_timestamps" (PBool true))
                temp_path w2) as Hf.
  destruct (fetch_and_transcribe env u _ _ temp_path w2) as [[e | result] w3];
    simpl in *; by rewrite cleanup_daemon, Hf, Hc.
Qed.

Lemma transcribe_audio_last_activity env request w :
  last_activity (daemon (transcribe_audio env request w).2) = time env.
Proof.
  unfold transcribe_audio.
  pose proof (transcribe_body_last_activity env request w) as H.
  destruct (transcribe_body env request w) as [[e | response] w']; done.
Qed.

Lemma _shutdown_last_activity env w :
  last_activity (daemon (_shutdown env w).2) = last_activity (daemon w).
Proof.
  unfold _shutdown, _unload_model. run.
  destruct (model (daemon w)); simpl; [| done].
  destruct (torch_present env && cuda_available env); simpl; [| done].
  destruct (empty_cache env); done.
Qed.

Lemma handle_request_world env request w :
  (handle_request env request w).2
  = match dispatch env request w with
    | (inr _, w') => w'
    | (inl e, w') =>
        add_log ERROR
          ("Request handling failed: " +:+ exn_str (runtime env) e) w'
    end.
Proof.
  unfold handle_request.
  by destruct (dispatch env request w) as [[e | response] w'].
Qed.

Lemma handle_transcribe_last_activity env request w :
  request !! "action" = Some (PStr "transcribe") →
  last_activity (daemon (handle_request env request w).2) = time env.
Proof.
  intros Ha. rewrite handle_request_world. unfold dispatch, request_get.
  rewrite Ha. simpl.
  pose proof (transcribe_audio_last_activity env request w) as H.
  destruct (transcribe_audio env request w) as [[e | response] w']; done.
Qed.

Lemma handle_other_last_activity env request w action :
  request !! "action" = Some (PStr action) →
  action ≠ "transcribe" →
  last_activity (daemon (handle_request env request w).2)
  = last_activity (daemon w).
Proof.
  intros Ha Hne. rewrite handle_request_world. unfold dispatch, request_get.
  rewrite Ha. simpl.
  destruct (String.eqb_spec action "transcribe"); [done |].
  destruct (String.eqb action "ping"); simpl; [done |].
  destruct (String.eqb action "status"); simpl; [done |].
  destruct (String.eqb action "shutdown"); simpl; [| done].
  run. pose proof (_shutdown_last_activity env w) as H.
  destruct (_shutdown env w) as [[e | []] w']; done.
Qed.

(** C8. For every request that carries an id, the response of
    [handle_request] holds that id unchanged, whatever the action tag
    (known or not) and whether or not the handling raised. *)
Theorem response_carries_request_id env request w (v : pyval) :
  request !! "id" = Some v →
  (handle_request env request w).1 !! "id" = Some v.
Proof.
  intros Hid. rewrite handle_request_id. unfold request_get. by rewrite Hid.
Qed.

(** Two runs of C8: an unrecognized action, and a [shutdown] during which
    the release of the GPU cache raises, so that the response is built by
    the [except] branch of [handle_request]. *)
Lemma response_carries_request_id_witness :
  let unknown :=
    Sample.request [ ("id", PStr "r7"); ("action", PStr "rewind") ] in
  let failing :=
    Sample.request [ ("id", PNum 8); ("action", PStr "shutdown") ] in
  (unknown !! "id" = Some (PStr "r7")
   ∧ (handle_request (Sample.env 500 false false false) unknown
        Sample.world).1 !! "id" = Some (PStr "r7"))
  ∧ (failing !! "id" = Some (PNum 8)
     ∧ (handle_request (Sample.env 500 true false false) failing
          Sample.world).1 !! "id" = Some (PNum 8)).
Proof.
  simpl. split; (split; [vm_compute; reflexivity |]).
  - apply response_carries_request_id. vm_compute; reflexivity.
  - apply response_carries_request_id. vm_compute; reflexivity.
Defined.

Example unknown_action_response :
  let response :=
    (handle_request (Sample.env 500 false false false)
       (Sample.request [ ("id", PStr "r7"); ("action", PStr "rewind") ])
       Sample.world).1 in
  response !! "success" = Some (PBool false)
  ∧ response !! "error" = Some (PStr "Unknown action: rewind").
Proof. vm_compute. split; reflexivity. Qed.

Example internal_error_response :
  let response :=
    (handle_request (Sample.env 500 true false false)
       (Sample.request [ ("id", PNum 8); ("action", PStr "shutdown") ])
       Sample.world).1 in
  response !! "success" = Some (PBool false)
  ∧ response !! "error" = Some (PStr "CUDA error").
Proof. vm_compute. split; reflexivity. Qed.

(** C9. A request with no [id] field gets a response whose [id] field is
    the string "unknown". *)
Theorem missing_id_defaults_to_unknown env request w :
  request !! "id" = None →
  (handle_request env request w).1 !! "id" = Some (PStr "unknown").
Proof.
  intros Hid. rewrite handle_request_id. unfold request_get. by rewrite Hid.
Qed.

Lemma missing_id_defaults_to_unknown_witness :
  let request := Sample.request [ ("action", PStr "ping") ] in
  request !! "id" = None
  ∧ (handle_request (Sample.env 500 false false false) request
       Sample.world).1 !! "id" = Some (PStr "unknown").
Proof.
  simpl. split; [vm_compute; reflexivity |].
  apply missing_id_defaults_to_unknown. vm_compute; reflexivity.
Defined.

(** C10. Every [transcribe] dispatch leaves [last_activity] at the clock
    reading taken on entry, whatever happens afterwards: an SSRF
    rejection, any other failure, or a transcript. *)
Theorem transcribe_resets_idle_clock env request w :
  request !! "action" = Some (PStr "transcribe") →
  last_activity (daemon (handle_request env request w).2) = time env.
Proof. apply handle_transcribe_last_activity. Qed.

Lemma transcribe_resets_idle_clock_witness :
  let request :=
    Sample.request [ ("id", PStr "t1"); ("action", PStr "transcribe");
                     ("url", PStr "http://127.0.0.1/x") ] in
  let env := Sample.env 500 false false false in
  request !! "action" = Some (PStr "transcribe")
  ∧ (handle_request env request Sample.world).1 !! "success"
    = Some (PBool false)
  ∧ last_activity (daemon (handle_request env request Sample.world).2) = 500.
Proof.
  simpl. split; [vm_compute; reflexivity |].
  split; [vm_compute; reflexivity |].
  apply (transcribe_resets_idle_clock (Sample.env 500 false false false)).
  vm_compute; reflexivity.
Defined.

(** C7, as the code has it. A [transcribe] call sets [last_activity] to
    the current time; a [ping], [status] or [shutdown] call leaves it as
    it was. *)
Theorem only_transcribe_resets_idle_clock env request w action :
  request !! "action" = Some (PStr action) →
  (action = "transcribe" →
   last_activity (daemon (handle_request env request w).2) = time env)
  ∧ (action = "ping" ∨ action = "status" ∨ action = "shutdown" →
     last_activity (daemon (handle_request env request w).2)
     = last_activity (daemon w)).
Proof.
  intros Ha. split.
  - intros ->. by apply handle_transcribe_last_activity.
  - intros Hother. apply (handle_other_last_activity _ _ _ action); [done |].
    by destruct Hother as [-> | [-> | ->]].
Qed.

Lemma only_transcribe_resets_idle_clock_witness :
  let request :=
    Sample.request [ ("id", PStr "s1"); ("action", PStr "status") ] in
  let env := Sample.env 500 false false false in
  request !! "action" = Some (PStr "status")
  ∧ last_activity (daemon (handle_request env request Sample.world).2)
    = last_activity (daemon Sample.world).
Proof.
  simpl. split; [vm_compute; reflexivity |].
  apply (only_transcribe_resets_idle_clock
           (Sample.env 500 false false false) _ Sample.world "status");
    [vm_compute; reflexivity | by right; left].
Defined.

(** C7 as stated fails: a successful [ping] received at clock reading 500
    leaves [last_activity] at 100. *)
Lemma ping_does_not_reset_idle_clock :
  let request :=
    Sample.request [ ("id", PStr "p1"); ("action", PStr "ping") ] in
  let env := Sample.env 500 false false false in
  let result := handle_request env request Sample.world in
  result.1 !! "success" = Some (PBool true)
  ∧ last_activity (daemon result.2) = 100
  ∧ last_activity (daemon result.2) ≠ time env.
Proof. vm_compute. repeat split; congruence. Qed.

(** ** Port policy *)

Lemma _validate_port_ok p scheme :
  _validate_port (Some p) scheme = inr ()
  ↔ (p ∉ DANGEROUS_PORTS) ∧ (p ∈ SAFE_PORTS ∨ 1024 ≤ p).
Proof.
  unfold _validate_port.
  case_bool_decide as Hd; [split; [done | tauto] |].
  case_bool_decide as Hs; simpl.
  - case_bool_decide as Hw; simpl.
    + destruct (Z.ltb_spec p 1024).
      * split; [done | intros [_ [? | ?]]; [done | lia]].
      * split; [tauto | done].
    + exfalso. apply Hs. unfold SAFE_PORTS.
      rewrite !elem_of_union, !elem_of_singleton in *. tauto.
  - split; [intros _ | done]. split; [done |]. left.
    by destruct (decide (p ∈ SAFE_PORTS)).
Qed.

Lemma _validate_port_rejects p scheme e :
  _validate_port (Some p) scheme = inl e →
  ∃ e', e = SSRF e' ∧ kind e' = PortNotAllowed.
Proof.
  unfold _validate_port. intros H.
  repeat case_match; try discriminate; injection H as <-;
    (eexists; split; [reflexivity | reflexivity]).
Qed.

(** What [validate_url] does once the URL has parsed with an allowed
    scheme, a network location, a hostname and a readable port. *)
Lemma validate_url_reaches_port rt self url parsed h p :
  String.eqb url "" || blank url = false →
  urlparse rt url = inr parsed →
  lower (scheme parsed) ∈ ALLOWED_SCHEMES →
  netloc parsed ≠ "" →
  hostname parsed = Some h → h ≠ "" →
  port parsed = inr p →
  validate_url rt self url
  = (_validate_port p (scheme parsed) ;;;
     _validate_domain_allowlist self h ;;;
     if _is_ip_address rt h then _validate_ip_address rt h
     else _validate_hostname_resolution rt h).
Proof.
  intros Hurl Hparse Hscheme Hnetloc Hhost Hh Hport.
  unfold validate_url, _validate_scheme. rewrite Hurl, Hparse.
  rewrite bool_decide_eq_true_2 by done. simpl.
  destruct (String.eqb_spec (netloc parsed) ""); [done |].
  rewrite Hport, Hhost. by destruct h.
Qed.

(** C3. The port policy: a port of the dangerous set is rejected, and
    rejected by [validate_url] whatever the host, the allowlist and the
    DNS are; a port below 1024 outside 80, 443, 8080, 8443 is rejected;
    a port from 1024 up outside the dangerous set is accepted; no explicit
    port passes. Altogether an explicit port passes exactly when it is
    outside the dangerous set and is a safe port or at least 1024. *)
Theorem port_policy (sch : string) :
  (∀ p, p ∈ DANGEROUS_PORTS →
     _validate_port (Some p) sch = inl (SSRF (DangerousPort p))
     ∧ kind (DangerousPort p) = PortNotAllowed)
  ∧ (∀ p, p < 1024 → p ∉ SAFE_PORTS →
       ∃ e, _validate_port (Some p) sch = inl (SSRF e)
            ∧ kind e = PortNotAllowed)
  ∧ (∀ p, 1024 ≤ p → p ∉ DANGEROUS_PORTS →
       _validate_port (Some p) sch = inr ())
  ∧ _validate_port None sch = inr ()
  ∧ (∀ p, _validate_port (Some p) sch = inr ()
          ↔ (p ∉ DANGEROUS_PORTS) ∧ (p ∈ SAFE_PORTS ∨ 1024 ≤ p))
  ∧ (∀ rt self url parsed h p,
       String.eqb url "" || blank url = false →
       urlparse rt url = inr parsed →
       lower (scheme parsed) ∈ ALLOWED_SCHEMES →
       netloc parsed ≠ "" →
       hostname parsed = Some h → h ≠ "" →
       port parsed = inr (Some p) →
       p ∈ DANGEROUS_PORTS →
       validate_url rt self url = inl (SSRF (DangerousPort p))).
Proof.
  split_and!.
  - intros p Hp. unfold _validate_port.
    by rewrite bool_decide_eq_true_2.
  - intros p Hlt Hsafe.
    destruct (_validate_port (Some p) sch) as [e | []] eqn:Hv.
    + destruct (_validate_port_rejects _ _ _ Hv) as (e' & -> & Hk). eauto.
    + apply _validate_port_ok in Hv. destruct Hv as [_ [? | ?]]; [done | lia].
  - intros p Hge Hd. apply _validate_port_ok. auto.
  - done.
  - intros p. apply _validate_port_ok.
  - intros rt self url parsed h p Hurl Hparse Hscheme Hnetloc Hhost Hh Hport Hd.
    rewrite (validate_url_reaches_port rt self url parsed h (Some p)) by done.
    unfold _validate_port. by rewrite bool_decide_eq_true_2.
Qed.

Lemma port_policy_witness :
  _validate_port (Some 22) "http" = inl (SSRF (DangerousPort 22))
  ∧ (∃ e, _validate_port (Some 21) "http" = inl (SSRF e)
          ∧ kind e = PortNotAllowed)
  ∧ _validate_port (Some 9000) "http" = inr ()
  ∧ validate_url Sample.the_runtime (URLValidator_init None 30)
      "http://example.com:22/audio.wav"
    = inl (SSRF (DangerousPort 22)).
Proof.
  destruct (port_policy "http") as (H1 & H2 & H3 & _ & _ & H6).
  assert (22 ∈ DANGEROUS_PORTS) as H22
    by (apply (bool_decide_unpack _); vm_compute; exact I).
  split; [apply H1, H22 |].
  split.
  { apply H2; [lia | apply (bool_decide_unpack _); vm_compute; exact I]. }
  split.
  { apply H3; [lia | apply (bool_decide_unpack _); vm_compute; exact I]. }
  apply (H6 Sample.the_runtime (URLValidator_init None 30)
           "http://example.com:22/audio.wav"
           {| scheme := "http"; netloc := "example.com:22";
              hostname := Some "example.com"; port := inr (Some 22) |}
           "example.com" 22);
    try (vm_compute; reflexivity); try discriminate; try exact H22.
Defined.

(** ** Order of the checks of [validate_url] *)

(** C4, as the code has it. The scheme is checked before the structure: a
    URL whose scheme is not http or https fails with [SchemeNotAllowed]
    even when its network location or hostname is missing; with an http or
    https scheme, a missing network location is [Malformed], and so is a
    missing hostname when the port can be read. *)
Theorem scheme_checked_before_structure rt self url parsed :
  String.eqb url "" || blank url = false →
  urlparse rt url = inr parsed →
  (lower (scheme parsed) ∉ ALLOWED_SCHEMES →
   validate_url rt self url = inl (SSRF (SchemeNotAllowed (scheme parsed)))
   ∧ kind (SchemeNotAllowed (scheme parsed)) = SchemeNotAllowedKind)
  ∧ (lower (scheme parsed) ∈ ALLOWED_SCHEMES →
     (netloc parsed = "" →
      validate_url rt self url = inl (SSRF MissingHost)
      ∧ kind MissingHost = Malformed)
     ∧ (netloc parsed ≠ "" →
        (hostname parsed = None ∨ hostname parsed = Some "") →
        ∀ p, port parsed = inr p →
        validate_url rt self url = inl (SSRF MissingHostname)
        ∧ kind MissingHostname = Malformed)).
Proof.
  intros Hurl Hparse. unfold validate_url, _validate_scheme.
  rewrite Hurl, Hparse. split; [| split].
  - intros Hs. by rewrite bool_decide_eq_false_2.
  - intros ->. by rewrite bool_decide_eq_true_2.
  - intros Hnetloc Hhost p Hport. rewrite bool_decide_eq_true_2 by done.
    simpl. destruct (String.eqb_spec (netloc parsed) ""); [done |].
    rewrite Hport. by destruct Hhost as [-> | ->].
Qed.

Lemma scheme_checked_before_structure_witness :
  let rt := Sample.the_runtime in
  let self := URLValidator_init None 30 in
  validate_url rt self "http:///missing-host" = inl (SSRF MissingHost)
  ∧ validate_url rt self "http://:80/x" = inl (SSRF MissingHostname).
Proof.
  simpl.
  destruct (scheme_checked_before_structure
              Sample.the_runtime (URLValidator_init None 30)
              "http:///missing-host"
              {| scheme := "http"; netloc := ""; hostname := None;
                 port := inr None |})
    as [_ H1]; [vm_compute; reflexivity .. |].
  destruct (scheme_checked_before_structure
              Sample.the_runtime (URLValidator_init None 30)
              "http://:80/x"
              {| scheme := "http"; netloc := ":80"; hostname := None;
                 port := inr (Some 80) |})
    as [_ H2]; [vm_compute; reflexivity .. |].
  split.
  - apply H1; [vm_compute; reflexivity.. ].
  - eapply H2; [vm_compute; reflexivity | discriminate | by left
               | reflexivity ].
Defined.

(** C4 as stated fails: [file:///etc/passwd] has neither network location
    nor hostname, and is rejected for its scheme, not as malformed. *)
Lemma missing_host_rejected_for_scheme :
  let rt := Sample.the_runtime in
  ∃ parsed,
    urlparse rt "file:///etc/passwd" = inr parsed
    ∧ netloc parsed = "" ∧ hostname parsed = None
    ∧ validate_url rt (URLValidator_init None 30) "file:///etc/passwd"
      = inl (SSRF (SchemeNotAllowed "file"))
    ∧ kind (SchemeNotAllowed "file") ≠ Malformed.
Proof.
  simpl. eexists. split; [vm_compute; reflexivity |].
  split; [reflexivity |]. split; [reflexivity |].
  split; [vm_compute; reflexivity | discriminate].
Qed.

(** ** Rejected URLs and temporary files *)

Lemma _load_model_ready env w :
  (model (daemon w) = None →
   ∃ m, load_model env (model_name (daemon w)) (device (daemon w)) = inr m) →
  ∃ w', _load_model env w = (inr (), w').
Proof.
  intros Hready. unfold _load_model.
  destruct (model (daemon w)); [by eexists |].
  destruct Hready as [m ->]; [done |]. by eexists.
Qed.

(** C1. A [transcribe] request whose URL is rejected by [validate_url]
    gets a failure response, and its handling creates no file and opens
    no URL. When the call reaches the validator, that is when the URL is
    not empty and the engine is loaded or loads, the error text is the
    validator's message, and the rejection is logged as a security
    event. *)
Theorem ssrf_rejection_never_fetches env request w u e :
  request !! "action" = Some (PStr "transcribe") →
  request !! "url" = Some (PStr u) →
  validate_url (runtime env) (url_validator (daemon w)) u = inl (SSRF e) →
  let result := handle_request env request w in
  result.1 !! "success" = Some (PBool false)
  ∧ files result.2 = files w
  ∧ created result.2 = created w
  ∧ fetched result.2 = fetched w
  ∧ (u ≠ "" →
     (model (daemon w) = None →
      ∃ m, load_model env (model_name (daemon w)) (device (daemon w))
           = inr m) →
     result.1 !! "error"
     = Some (PStr ("URL validation failed: "
                   +:+ SSRFError_str (runtime env) e))
     ∧ (ERROR,
        "SECURITY: SSRF attempt blocked for URL: " +:+ u +:+ " - "
        +:+ SSRFError_str (runtime env) e) ∈ logs result.2).
Proof.
  intros Ha Hu Hv. unfold handle_request, dispatch, request_get.
  rewrite Ha. simpl. unfold transcribe_audio, transcribe_body, request_get.
  rewrite Hu. run.
  pose proof (_load_model_frame env
                (set_daemon (with_last_activity (time env)) w)) as Hload.
  simpl in Hload. destruct Hload as (_ & Hval & Hfiles & Hcreated & Hfetched).
  destruct (_load_model env _) as [[e1 | []] w1] eqn:Hl; simpl in *.
  { split_and!; try done. intros _ Hr.
    destruct (_load_model_ready env
                (set_daemon (with_last_activity (time env)) w) Hr) as [w' Hw'].
    congruence. }
  destruct (String.eqb_spec u ""); simpl.
  { split_and!; done. }
  rewrite Hval, Hv. simpl.
  split_and!; try done.
  intros _ _. split; [done |]. by right; left.
Qed.

Lemma ssrf_rejection_never_fetches_witness :
  let env := Sample.env 500 false false false in
  let request :=
    Sample.request [ ("id", PStr "t1"); ("action", PStr "transcribe");
                     ("url", PStr "http://127.0.0.1/x") ] in
  let result := handle_request env request Sample.world in
  validate_url (runtime env) (url_validator (daemon Sample.world))
    "http://127.0.0.1/x"
  = inl (SSRF (LoopbackAddress (IPv4Address 0x7f000001)))
  ∧ result.1 !! "success" = Some (PBool false)
  ∧ fetched result.2 = []
  ∧ result.1 !! "error"
    = Some (PStr ("URL validation failed: "
                  +:+ "Localhost/loopback address not allowed: 127.0.0.1")).
Proof.
  simpl.
  destruct (ssrf_rejection_never_fetches
              (Sample.env 500 false false false)
              (Sample.request [ ("id", PStr "t1");
                                ("action", PStr "transcribe");
                                ("url", PStr "http://127.0.0.1/x") ])
              Sample.world "http://127.0.0.1/x"
              (LoopbackAddress (IPv4Address 0x7f000001)))
    as (Hsuccess & _ & _ & Hfetched & Herror);
    [vm_compute; reflexivity .. |].
  split; [vm_compute; reflexivity |].
  split; [exact Hsuccess |]. split; [exact Hfetched |].
  apply Herror; [discriminate | discriminate].
Defined.

Lemma list_ne_cons {A} (x : A) (l : list A) : l ≠ x :: l.
Proof. intros H. apply (f_equal length) in H. simpl in H. lia. Qed.

Lemma _shutdown_created env w :
  created (_shutdown env w).2 = created w.
Proof.
  unfold _shutdown, _unload_model. run.
  destruct (model (daemon w)); simpl; [| done].
  destruct (torch_present env && cuda_available env); simpl; [| done].
  destruct (empty_cache env); done.
Qed.

Lemma _create_secure_temp_file_spec env w :
  match _create_secure_temp_file env w with
  | (inl _, w') => created w' = created w
  | (inr temp_path, w') =>
      created w' = temp_path :: created w ∧ temp_path ∈ files w'
  end.
Proof.
  unfold _create_secure_temp_file.
  destruct (temp_writable env); simpl; [| done].
  case_bool_decide; simpl; [done |].
  destruct (os_open env _); simpl; [done |].
  split; [done |]. apply elem_of_union_l, elem_of_singleton. done.
Qed.

Lemma fetch_and_transcribe_frame env url language wts temp_path w :
  let w' := (fetch_and_transcribe env url language wts temp_path w).2 in
  created w' = created w ∧ (temp_path ∈ files w → temp_path ∈ files w').
Proof.
  unfold fetch_and_transcribe; simpl.
  destruct (download env _ _); simpl; [done |].
  destruct (model (daemon w)); simpl;
    (split; [done |]; intros ?; by apply elem_of_union_r).
Qed.

Lemma cleanup_spec env temp_path w :
  temp_path ∈ files w →
  let w' := cleanup env temp_path w in
  created w' = created w
  ∧ (os_unlink env temp_path = None → temp_path ∉ files w')
  ∧ (∀ e, os_unlink env temp_path = Some e →
       (ERROR,
        "SECURITY: Failed to cleanup temp file " +:+ temp_path +:+ ": "
        +:+ exn_str (runtime env) e) ∈ logs w').
Proof.
  intros Hin. unfold cleanup. rewrite bool_decide_eq_true_2 by done.
  destruct (os_unlink env temp_path); simpl.
  - split; [done |]. split; [done |]. intros ? [= <-]. by left.
  - split; [done |]. split; [| done]. intros _.
    rewrite elem_of_difference, elem_of_singleton. tauto.
Qed.

(** What a call of [transcribe_body] that created a file did with it. *)
Lemma transcribe_body_created env request w temp_path :
  let result := transcribe_body env request w in
  created result.2 = temp_path :: created w →
  (os_unlink env temp_path = None → temp_path ∉ files result.2)
  ∧ (∀ e, os_unlink env temp_path = Some e →
       (ERROR,
        "SECURITY: Failed to cleanup temp file " +:+ temp_path +:+ ": "
        +:+ exn_str (runtime env) e) ∈ logs result.2).
Proof.
  unfold transcribe_body. run.
  pose proof (_load_model_frame env
                (set_daemon (with_last_activity (time env)) w)) as Hload.
  simpl in Hload. destruct Hload as (_ & _ & _ & Hcreated & _).
  destruct (_load_model env _) as [[e1 | []] w1]; simpl in *.
  { rewrite Hcreated. intros H. by destruct (list_ne_cons _ _ H). }
  destruct (truthy _); simpl.
  2:{ rewrite Hcreated. intros H. by destruct (list_ne_cons _ _ H). }
  destruct (request_get request "url" PNone) as [| | | u | |]; simpl;
    try (rewrite Hcreated; intros H; by destruct (list_ne_cons _ _ H)).
  destruct (validate_url _ _ u) as [[] | []]; simpl;
    try (rewrite Hcreated; intros H; by destruct (list_ne_cons _ _ H)).
  pose proof (_create_secure_temp_file_spec env
                (add_log INFO ("URL validation passed for: " +:+ u) w1)) as Hc.
  destruct (_create_secure_temp_file env _) as [[e | p] w2]; simpl in *.
  { rewrite Hc, Hcreated. intros H. by destruct (list_ne_cons _ _ H). }
  destruct Hc as [Hc Hin].
  pose proof (fetch_and_transcribe_frame env u
                (request_get request "language" (PStr "auto"))
                (request_get request "word_timestamps" (PBool true))
                p w2) as Hf.
  simpl in Hf. destruct Hf as [Hfc Hfin].
  destruct (fetch_and_transcribe env u _ _ p w2) as [r w3]; simpl in *.
  destruct (cleanup_spec env p w3 (Hfin Hin)) as (Hcc & Hgone & Hlog).
  assert (created (cleanup env p w3) = temp_path :: created w → temp_path = p)
    as Heq.
  { rewrite Hcc, Hfc, Hc, Hcreated. by intros [= ->]. }
  destruct r as [e | result]; simpl; intros H; rewrite (Heq H); auto.
Qed.

Lemma transcribe_audio_created env request w temp_path :
  let result := transcribe_audio env request w in
  created result.2 = temp_path :: created w →
  (os_unlink env temp_path = None → temp_path ∉ files result.2)
  ∧ (∀ e, os_unlink env temp_path = Some e →
       (ERROR,
        "SECURITY: Failed to cleanup temp file " +:+ temp_path +:+ ": "
        +:+ exn_str (runtime env) e) ∈ logs result.2).
Proof.
  unfold transcribe_audio.
  pose proof (transcribe_body_created env request w temp_path) as H.
  destruct (transcribe_body env request w) as [[e | response] w'];
    simpl in *; intros Hc; destruct (H Hc) as [H1 H2]; [| done].
  split; [done |]. intros e' He'. right. by apply H2.
Qed.

(** The deletion decides nothing about the response. *)
Lemma transcribe_body_unlink_irrelevant env unlink request w :
  (transcribe_body (with_os_unlink unlink env) request w).1
  = (transcribe_body env request w).1.
Proof.
  unfold transcribe_body, _load_model, with_os_unlink,
    _create_secure_temp_file, fetch_and_transcribe, temp_name. run.
  destruct (model (daemon w)) eqn:Hm; simpl;
    [| destruct (load_model env _ _); simpl; [done |]];
    (destruct (truthy _); simpl; [| done];
     destruct (request_get request "url" PNone); simpl; try done;
     destruct (validate_url _ _ _) as [[] | []]; simpl; try done;
     destruct (temp_writable env); simpl; [| done];
     case_bool_decide; simpl; [done |];
     destruct (os_open env _); simpl; [done |];
     destruct (download env _ _); simpl; [done |];
     rewrite ?Hm; by destruct (model_transcribe env _ _ _ _)).
Qed.

Lemma handle_request_unlink_irrelevant env unlink request w :
  (handle_request (with_os_unlink unlink env) request w).1
  = (handle_request env request w).1.
Proof.
  unfold handle_request, dispatch.
  destruct (is_str _ "transcribe").
  - unfold transcribe_audio.
    pose proof (transcribe_body_unlink_irrelevant env unlink request w) as H.
    destruct (transcribe_body (with_os_unlink unlink env) request w)
      as [r1 w1], (transcribe_body env request w) as [r2 w2].
    simpl in H. subst r2. by destruct r1.
  - destruct (is_str _ "ping"); [done |].
    destruct (is_str _ "status"); [done |].
    destruct (is_str _ "shutdown"); [| done].
    unfold _shutdown, _unload_model, with_os_unlink. run.
    destruct (model (daemon w)); simpl; [| done].
    destruct (torch_present env && cuda_available env); simpl; [| done].
    by destruct (empty_cache env).
Qed.

(** C5. The temporary file a [transcribe] call created no longer exists
    when the call returns, whether it returns a transcript or a failure,
    unless the deletion itself failed; a failed deletion is logged as a
    security event, and the response is the one the call returns when
    the deletion succeeds. *)
Theorem temp_file_removed env request w temp_path :
  let result := handle_request env request w in
  created result.2 = temp_path :: created w →
  (os_unlink env temp_path = None → temp_path ∉ files result.2)
  ∧ (∀ e, os_unlink env temp_path = Some e →
       (ERROR,
        "SECURITY: Failed to cleanup temp file " +:+ temp_path +:+ ": "
        +:+ exn_str (runtime env) e) ∈ logs result.2
       ∧ result.1
         = (handle_request (with_os_unlink (λ _, None) env) request w).1).
Proof.
  simpl. intros Hc.
  assert ((os_unlink env temp_path = None
           → temp_path ∉ files (handle_request env request w).2)
          ∧ (∀ e, os_unlink env temp_path = Some e →
               (ERROR,
                "SECURITY: Failed to cleanup temp file " +:+ temp_path
                +:+ ": " +:+ exn_str (runtime env) e)
               ∈ logs (handle_request env request w).2)) as [H1 H2].
  { revert Hc. rewrite handle_request_world. unfold dispatch.
    destruct (is_str _ "transcribe").
    - pose proof (transcribe_audio_created env request w temp_path) as H.
      unfold transcribe_audio in *.
      destruct (transcribe_body env request w) as [[e | response] w'];
        simpl in *; done.
    - destruct (is_str _ "ping"); simpl;
        [intros H; by destruct (list_ne_cons _ _ H) |].
      destruct (is_str _ "status"); simpl;
        [intros H; by destruct (list_ne_cons _ _ H) |].
      destruct (is_str _ "shutdown"); simpl;
        [| intros H; by destruct (list_ne_cons _ _ H)].
      run. pose proof (_shutdown_created env w) as Hs.
      destruct (_shutdown env w) as [[e | []] w']; simpl in *;
        rewrite Hs; intros H; by destruct (list_ne_cons _ _ H). }
  split; [done |]. intros e He. split; [by apply H2 |].
  by rewrite handle_request_unlink_irrelevant.
Qed.

Lemma temp_file_removed_witness :
  let request :=
    Sample.request [ ("id", PStr "t2"); ("action", PStr "transcribe");
                     ("url", PStr "https://example.com/audio.wav") ] in
  let temp_path := "/tmp/whisper_0123456789abcdef0123456789abcdef.wav" in
  (* the download fails, the deletion succeeds *)
  (created (handle_request (Sample.env 500 false false true) request
              Sample.world).2 = [ temp_path ]
   ∧ temp_path ∉ files (handle_request (Sample.env 500 false false true)
                          request Sample.world).2)
  (* the engine returns, the deletion fails *)
  ∧ (created (handle_request (Sample.env 500 false true false) request
                Sample.world).2 = [ temp_path ]
     ∧ (handle_request (Sample.env 500 false true false) request
          Sample.world).1
       = (handle_request
            (with_os_unlink (λ _, None) (Sample.env 500 false true false))
            request Sample.world).1).
Proof.
  simpl. split.
  - split; [vm_compute; reflexivity |].
    apply (temp_file_removed (Sample.env 500 false false true));
      vm_compute; reflexivity.
  - split; [vm_compute; reflexivity |].
    eapply (temp_file_removed (Sample.env 500 false true false));
      vm_compute; reflexivity.
Defined.

(** ** The idle checker *)

(** C6, as the code has it. While the daemon is running, a wake-up of the
    idle checker at which [now - last_activity] exceeds [idle_timeout]
    stops the daemon on its own: [running] becomes false, the engine
    handle is released and, the release of the GPU cache not raising, the
    shutdown event is set. At [now - last_activity <= idle_timeout],
    equality included, the checker goes back to sleep. *)
Theorem idle_checker_policy env now later w :
  running (daemon w) = true →
  (idle_timeout (daemon w) < now - last_activity (daemon w) →
   let result := _idle_checker env (now :: later) w in
   running (daemon result.2) = false
   ∧ model (daemon result.2) = None
   ∧ (empty_cache env = None →
      result.1 = inr () ∧ shutdown_event (daemon result.2) = true))
  ∧ (now - last_activity (daemon w) ≤ idle_timeout (daemon w) →
     _idle_checker env (now :: later) w = _idle_checker env later w).
Proof.
  intros Hrun. simpl. rewrite Hrun. unfold idle_check. split.
  - intros Hlt. rewrite (proj2 (Z.ltb_lt _ _) Hlt).
    unfold _shutdown, _unload_model. run.
    destruct (model (daemon w)) eqn:Hmodel; simpl; [| by rewrite Hmodel].
    destruct (torch_present env && cuda_available env); simpl; [| done].
    destruct (empty_cache env); simpl; [| done].
    split; [done |]. split; [done |]. discriminate.
  - intros Hle. by rewrite (proj2 (Z.ltb_ge _ _) Hle).
Qed.

Lemma idle_checker_policy_witness :
  let result :=
    _idle_checker (Sample.env 401 false false false) [ 401 ] Sample.world in
  401 - last_activity (daemon Sample.world) = 301
  ∧ running (daemon result.2) = false
  ∧ model (daemon result.2) = None
  ∧ shutdown_event (daemon result.2) = true.
Proof.
  simpl. split; [reflexivity |].
  destruct (idle_checker_policy (Sample.env 401 false false false) 401 []
              Sample.world) as [H _]; [reflexivity |].
  destruct H as (Hr & Hm & He); [reflexivity |].
  split; [exact Hr |]. split; [exact Hm |]. by apply He.
Defined.

(** C6 as stated fails: with [idle_timeout = 300] and
    [last_activity = 100], the wake-up at clock reading 400 observes
    [now - last_activity = idle_timeout] and leaves the daemon running. *)
Lemma idle_checker_keeps_running_at_timeout :
  let env := Sample.env 400 false false false in
  let result := _idle_checker env [ 400 ] Sample.world in
  running (daemon Sample.world) = true
  ∧ idle_timeout (daemon Sample.world)
    ≤ 400 - last_activity (daemon Sample.world)
  ∧ result = (inr (), Sample.world)
  ∧ running (daemon result.2) = true
  ∧ shutdown_event (daemon result.2) = false.
Proof. vm_compute. repeat split; congruence. Qed.

(** ** IPv4-mapped IPv6 addresses *)

(** The recursive call: a mapped address that passes the checks on the
    IPv6 object gets the verdict of its embedded IPv4 address. *)
Lemma validate_ip_unwraps a m :
  address_checks (IPv6Address a) = inr () →
  ipv4_mapped a = Some m →
  validate_ip (IPv6Address a) = validate_ip (IPv4Address m).
Proof.
  intros Hc Hm. rewrite validate_ip_equation_2, Hc, Hm. reflexivity.
Qed.

Lemma ipv4_mapped_shape a m :
  ipv4_mapped a = Some m → Z.shiftr a 32 = 0xFFFF.
Proof.
  unfold ipv4_mapped. destruct (Z.eqb_spec (Z.shiftr a 32) 0xFFFF); simpl;
    [done | discriminate].
Qed.

(** Membership in a network fixes the bits under the netmask. *)
Lemma in_network_testbit bits ip net i :
  in_network bits ip net = true →
  Z.testbit (netmask bits net.2) i = true →
  Z.testbit ip i = Z.testbit net.1 i.
Proof.
  unfold in_network. intros H Hmask. apply Z.eqb_eq in H.
  by rewrite <- H, Z.land_spec, Hmask, andb_true_r.
Qed.

Lemma mapped_not_loopback a m :
  ipv4_mapped a = Some m → is_loopback (IPv6Address a) = false.
Proof.
  intros Hm. apply ipv4_mapped_shape in Hm. simpl.
  apply Z.eqb_neq. intros ->. discriminate.
Qed.

Lemma mapped_not_link_local a m :
  ipv4_mapped a = Some m → is_link_local (IPv6Address a) = false.
Proof.
  intros Hm. apply ipv4_mapped_shape in Hm.
  destruct (is_link_local (IPv6Address a)) eqn:Hl; [| done].
  apply (in_network_testbit _ _ _ 127) in Hl; [| vm_compute; reflexivity].
  replace (Z.testbit a 127) with (Z.testbit (Z.shiftr a 32) 95) in Hl
    by (rewrite Z.shiftr_spec by lia; reflexivity).
  rewrite Hm in Hl. vm_compute in Hl. discriminate.
Qed.

Lemma loopback_is_private_v4 m :
  is_loopback (IPv4Address m) = true → is_private_v4 m = true.
Proof.
  unfold is_loopback, is_private_v4. intros Hl.
  apply andb_true_intro. split.
  - unfold IPv4Constants._private_networks. simpl.
    unfold IPv4Constants._loopback_network in Hl. rewrite Hl.
    by rewrite !orb_true_r.
  - assert (Z.testbit m 31 = false) as Hbit.
    { by rewrite (in_network_testbit _ _ _ 31 Hl). }
    simpl.
    destruct (in_network 32 m (3221225481, 32)) eqn:H1.
    { apply (in_network_testbit _ _ _ 31) in H1; [| vm_compute; reflexivity].
      rewrite Hbit in H1. vm_compute in H1. discriminate. }
    destruct (in_network 32 m (3221225482, 32)) eqn:H2; [| done].
    apply (in_network_testbit _ _ _ 31) in H2; [| vm_compute; reflexivity].
    rewrite Hbit in H2. vm_compute in H2. discriminate.
Qed.

(** Every IPv4-mapped form of an address of 127.0.0.0/8 is rejected by
    the [is_private] check on the IPv6 object, before the recursive call
    could report it as loopback. *)
Lemma mapped_loopback_is_reported_private a m :
  ipv4_mapped a = Some m →
  is_loopback (IPv4Address m) = true →
  validate_ip (IPv6Address a) = inl (SSRF (PrivateAddress (IPv6Address a)))
  ∧ validate_ip (IPv4Address m)
    = inl (SSRF (LoopbackAddress (IPv4Address m))).
Proof.
  intros Hm Hl. rewrite validate_ip_equation_2, validate_ip_equation_1.
  unfold address_checks.
  rewrite (mapped_not_loopback a m Hm), (mapped_not_link_local a m Hm), Hl.
  unfold is_private. rewrite Hm, (loopback_is_private_v4 m Hl). done.
Qed.

(** C2 at its own example. The validator rejects both URLs, but not
    identically: [http://[::ffff:127.0.0.1]/x] is reported as a private
    address, by the [is_private] check made on the IPv6 object before the
    mapped form is unwrapped, and [http://127.0.0.1/x] as loopback. *)
Theorem mapped_loopback_url_reported_private :
  let rt := Sample.the_runtime in
  let self := URLValidator_init None 30 in
  validate_url rt self "http://[::ffff:127.0.0.1]/x"
  = inl (SSRF (PrivateAddress (IPv6Address 0xffff7f000001)))
  ∧ validate_url rt self "http://127.0.0.1/x"
    = inl (SSRF (LoopbackAddress (IPv4Address 0x7f000001)))
  ∧ ipv4_mapped 0xffff7f000001 = Some 0x7f000001
  ∧ kind (PrivateAddress (IPv6Address 0xffff7f000001)) = Private
  ∧ kind (LoopbackAddress (IPv4Address 0x7f000001)) = Loopback
  ∧ SSRFError_str rt (PrivateAddress (IPv6Address 0xffff7f000001))
    = "Private IP address not allowed: ::ffff:7f00:1".
Proof. vm_compute. repeat split; reflexivity. Qed.

(** ** Strings *)

Lemma string_app_cons a s t : String a s +:+ t = String a (s +:+ t).
Proof. reflexivity. Qed.

Lemma string_app_nil_l s : "" +:+ s = s.
Proof. reflexivity. Qed.

Lemma string_app_nil_r s : s +:+ "" = s.
Proof. induction s as [| a s IH]; [done |]. by rewrite string_app_cons, IH. Qed.

Lemma string_app_assoc s t u : (s +:+ t) +:+ u = s +:+ (t +:+ u).
Proof.
  induction s as [| a s IH]; [done |]. by rewrite !string_app_cons, IH.
Qed.

Lemma string_rev_app_spec s t : String.rev_app s t = String.rev s +:+ t.
Proof.
  revert t. induction s as [| a s IH]; intros t; [done |].
  unfold String.rev. simpl. rewrite (IH (String a t)), (IH (String a "")).
  by rewrite string_app_assoc.
Qed.

Lemma string_rev_cons a s :
  String.rev (String a s) = String.rev s +:+ String a "".
Proof. unfold String.rev at 1. simpl. apply string_rev_app_spec. Qed.

Lemma string_rev_app_distr s t :
  String.rev (s +:+ t) = String.rev t +:+ String.rev s.
Proof.
  induction s as [| a s IH]; [by rewrite string_app_nil_l, string_app_nil_r |].
  by rewrite string_app_cons, !string_rev_cons, IH, string_app_assoc.
Qed.

Lemma string_rev_involutive s : String.rev (String.rev s) = s.
Proof.
  induction s as [| a s IH]; [done |].
  by rewrite string_rev_cons, string_rev_app_distr, IH.
Qed.

Lemma string_prefix_app p s :
  String.prefix p s = true ↔ ∃ q, s = p +:+ q.
Proof.
  revert s. induction p as [| a p IH]; intros s.
  - split; [intros _; by exists s | intros _; by destruct s].
  - destruct s as [| b s]; simpl.
    + split; [done | intros [q Hq]; discriminate].
    + destruct (Ascii.ascii_dec a b) as [-> | Hne].
      * rewrite IH. split; intros [q Hq]; exists q.
        -- by rewrite string_app_cons, <- Hq.
        -- rewrite string_app_cons in Hq. by injection Hq.
      * split; [done | intros [q Hq]]. rewrite string_app_cons in Hq.
        injection Hq as ? ?. congruence.
Qed.

(** [endswith] is what [str.endswith] is. *)
Lemma endswith_app s suffix :
  endswith s suffix = true ↔ ∃ p, s = p +:+ suffix.
Proof.
  unfold endswith. rewrite string_prefix_app. split.
  - intros [q Hq]. exists (String.rev q).
    by rewrite <- (string_rev_involutive s), Hq, string_rev_app_distr,
      string_rev_involutive.
  - intros [p ->]. exists (String.rev p). apply string_rev_app_distr.
Qed.

(** ** The domain allowlist *)

(** X1. With an allowlist configured, a hostname passes exactly when it
    is an entry of the list or ends with a dot followed by an entry;
    every other hostname is rejected with [NotInAllowlist]. *)
Theorem allowlist_accepts_entries_and_subdomains self allowed hostname :
  allowed_domains self = Some allowed →
  (_validate_domain_allowlist self hostname = inr ()
   ↔ hostname ∈ allowed
     ∨ ∃ label domain, domain ∈ allowed
                       ∧ hostname = label +:+ "." +:+ domain)
  ∧ (_validate_domain_allowlist self hostname = inr ()
     ∨ _validate_domain_allowlist self hostname
       = inl (SSRF (NotInAllowlist hostname))).
Proof.
  intros Hal. unfold _validate_domain_allowlist. rewrite Hal.
  case_bool_decide as Hin; [split; [tauto | by left] |].
  destruct (existsb _ _) eqn:Hex.
  - split; [| by left]. split; [intros _ | done]. right.
    apply existsb_exists in Hex as (domain & Hd & He).
    apply endswith_app in He as [label ->].
    exists label, domain. split; [| done].
    by apply elem_of_elements, list_elem_of_In.
  - split; [| by right]. split; [done |].
    intros [? | (label & domain & Hd & ->)]; [done |].
    assert (existsb (λ d, endswith (label +:+ "." +:+ domain) ("." +:+ d))
              (elements allowed) = true) as Hex'; [| congruence].
    apply existsb_exists. exists domain. split.
    + by apply list_elem_of_In, elem_of_elements.
    + apply endswith_app. by exists label.
Qed.

Lemma allowlist_accepts_entries_and_subdomains_witness :
  let self := URLValidator_init (Some [ "trusted.com" ]) 10 in
  _validate_domain_allowlist self "cdn.trusted.com" = inr ()
  ∧ _validate_domain_allowlist self "evil-trusted.com"
    = inl (SSRF (NotInAllowlist "evil-trusted.com")).
Proof.
  simpl.
  destruct (allowlist_accepts_entries_and_subdomains
              (URLValidator_init (Some [ "trusted.com" ]) 10)
              (list_to_set [ "trusted.com" ]) "cdn.trusted.com" eq_refl)
    as [H1 _].
  split.
  - apply H1. right. exists "cdn", "trusted.com".
    split; [| reflexivity]. apply (bool_decide_unpack _); vm_compute; exact I.
  - vm_compute; reflexivity.
Defined.

(** An empty list of allowed domains is no allowlist: the validator
    built from it is the one built from no list, and lets every hostname
    through the allowlist check. *)
Lemma empty_allowlist_is_no_allowlist timeout hostname :
  URLValidator_init (Some []) timeout = URLValidator_init None timeout
  ∧ _validate_domain_allowlist (URLValidator_init (Some []) timeout) hostname
    = inr ().
Proof. done. Qed.

(** X2. The allowlist is consulted before any address is looked at: once
    the scheme, the structure and the port have passed, a hostname outside
    the configured allowlist is rejected with [NotInAllowlist], whatever
    it is or resolves to. *)
Theorem allowlist_checked_before_addresses rt self url parsed host p :
  String.eqb url "" || blank url = false →
  urlparse rt url = inr parsed →
  lower (scheme parsed) ∈ ALLOWED_SCHEMES →
  netloc parsed ≠ "" →
  hostname parsed = Some host → host ≠ "" →
  port parsed = inr p →
  _validate_port p (scheme parsed) = inr () →
  _validate_domain_allowlist self host
  = inl (SSRF (NotInAllowlist host)) →
  validate_url rt self url = inl (SSRF (NotInAllowlist host)).
Proof.
  intros Hurl Hparse Hscheme Hnetloc Hhost Hne Hport Hp Hallow.
  rewrite (validate_url_reaches_port rt self url parsed host p) by done.
  by rewrite Hp, Hallow.
Qed.

Lemma allowlist_checked_before_addresses_witness :
  validate_url Sample.the_runtime
    (URLValidator_init (Some [ "trusted.com" ]) 10)
    "https://example.com/audio.wav"
  = inl (SSRF (NotInAllowlist "example.com")).
Proof.
  apply (allowlist_checked_before_addresses Sample.the_runtime _ _
           {| scheme := "https"; netloc := "example.com";
              hostname := Some "example.com"; port := inr None |}
           "example.com" None);
    try (vm_compute; reflexivity); discriminate.
Defined.


(** ** What the validator raises *)

Lemma address_checks_raises_ssrf ip e :
  address_checks ip = inl e → ∃ s, e = SSRF s.
Proof.
  unfold address_checks.
  destruct (is_loopback ip); [intros [= <-]; eauto |].
  destruct (is_link_local ip); [intros [= <-]; eauto |].
  destruct (is_private ip); [intros [= <-]; eauto |].
  destruct (is_multicast ip); [intros [= <-]; eauto |].
  destruct (is_unspecified ip); [intros [= <-]; eauto |].
  destruct ip as [a | a]; [| done].
  destruct (a =? _); [intros [= <-]; eauto | done].
Qed.

Lemma validate_ip_raises_ssrf ip e :
  validate_ip ip = inl e → ∃ s, e = SSRF s.
Proof.
  destruct ip as [a | a].
  - rewrite validate_ip_equation_1. apply address_checks_raises_ssrf.
  - rewrite validate_ip_equation_2. unfold exc_bind.
    destruct (address_checks (IPv6Address a)) as [e' | []] eqn:Hc.
    + intros [= <-]. by eapply address_checks_raises_ssrf.
    + destruct (ipv4_mapped a); [| discriminate].
      rewrite validate_ip_equation_1. apply address_checks_raises_ssrf.
Qed.

Lemma _validate_ip_address_raises_ssrf rt ip_str e :
  _validate_ip_address rt ip_str = inl e → ∃ s, e = SSRF s.
Proof.
  unfold _validate_ip_address. destruct (ip_address rt ip_str).
  - intros [= <-]. eauto.
  - apply validate_ip_raises_ssrf.
Qed.

Lemma _validate_hostname_resolution_raises_ssrf rt hostname e :
  _validate_hostname_resolution rt hostname = inl e → ∃ s, e = SSRF s.
Proof.
  unfold _validate_hostname_resolution. intros H.
  repeat case_match; try discriminate; injection H as <-; eauto.
Qed.

Lemma _validate_domain_allowlist_raises_ssrf self hostname e :
  _validate_domain_allowlist self hostname = inl e → ∃ s, e = SSRF s.
Proof.
  unfold _validate_domain_allowlist. intros H.
  repeat case_match; try discriminate; injection H as <-; eauto.
Qed.

(** What [validate_url] can raise. *)
Lemma validate_url_raises rt self url e :
  validate_url rt self url = inl e →
  (∃ s, e = SSRF s)
  ∨ (∃ parsed msg,
       urlparse rt url = inr parsed
       ∧ lower (scheme parsed) ∈ ALLOWED_SCHEMES
       ∧ netloc parsed ≠ ""
       ∧ port parsed = inl msg
       ∧ e = ValueError msg).
Proof.
  unfold validate_url, _validate_scheme.
  destruct (String.eqb url "" || blank url); [intros [= <-]; eauto |].
  destruct (urlparse rt url) as [msg | parsed]; [intros [= <-]; eauto |].
  case_bool_decide as Hs; simpl; [| intros [= <-]; eauto].
  destruct (String.eqb_spec (netloc parsed) "") as [| Hn];
    [intros [= <-]; eauto |].
  destruct (port parsed) as [msg | p] eqn:Hp.
  { intros [= <-]. right. exists parsed, msg. done. }
  destruct (hostname parsed) as [[| c h] |]; try (intros [= <-]; eauto).
  destruct (_validate_port p (scheme parsed)) as [e1 | []] eqn:H1; simpl.
  { intros [= <-]. left.
    destruct p as [p |]; [| discriminate].
    destruct (_validate_port_rejects _ _ _ H1) as (s & -> & _). eauto. }
  destruct (_validate_domain_allowlist self _) as [e2 | []] eqn:H2; simpl.
  { intros [= <-]. left. by eapply _validate_domain_allowlist_raises_ssrf. }
  destruct (_is_ip_address rt _); intros H; left.
  - by eapply _validate_ip_address_raises_ssrf.
  - by eapply _validate_hostname_resolution_raises_ssrf.
Qed.

(** The port is read before the hostname is looked at: with an allowed
    scheme and a network location, a port that cannot be read ends the
    validation with the parser's [ValueError]. *)
Lemma validate_url_unreadable_port rt self url parsed msg :
  String.eqb url "" || blank url = false →
  urlparse rt url = inr parsed →
  lower (scheme parsed) ∈ ALLOWED_SCHEMES →
  netloc parsed ≠ "" →
  port parsed = inl msg →
  validate_url rt self url = inl (ValueError msg).
Proof.
  intros Hurl Hparse Hscheme Hnetloc Hport.
  unfold validate_url, _validate_scheme.
  rewrite Hurl, Hparse. rewrite bool_decide_eq_true_2 by done. simpl.
  destruct (String.eqb_spec (netloc parsed) ""); [done |].
  by rewrite Hport.
Qed.

(** X3. [validate_url] raises [SSRFError] and nothing else, but for one
    case: a URL with an allowed scheme and a network location whose port
    cannot be read (not a number, or out of range) makes it raise the
    parser's [ValueError], whatever the host is. *)
Theorem validate_url_raises_ssrf_or_port_error rt self url :
  (∀ e, validate_url rt self url = inl e →
     (∃ s, e = SSRF s)
     ∨ (∃ parsed msg,
          urlparse rt url = inr parsed
          ∧ lower (scheme parsed) ∈ ALLOWED_SCHEMES
          ∧ netloc parsed ≠ ""
          ∧ port parsed = inl msg
          ∧ e = ValueError msg))
  ∧ (∀ parsed msg,
       String.eqb url "" || blank url = false →
       urlparse rt url = inr parsed →
       lower (scheme parsed) ∈ ALLOWED_SCHEMES →
       netloc parsed ≠ "" →
       port parsed = inl msg →
       validate_url rt self url = inl (ValueError msg)).
Proof.
  split.
  - intros e. apply validate_url_raises.
  - intros parsed msg. apply validate_url_unreadable_port.
Qed.

Lemma validate_url_raises_ssrf_or_port_error_witness :
  validate_url Sample2.the_runtime (URLValidator_init None 30)
    "http://example.com:99999/x"
  = inl (ValueError "Port out of range 0-65535").
Proof.
  destruct (validate_url_raises_ssrf_or_port_error Sample2.the_runtime
              (URLValidator_init None 30) "http://example.com:99999/x")
    as [_ H].
  apply (H {| scheme := "http"; netloc := "example.com:99999";
              hostname := Some "example.com";
              port := inl "Port out of range 0-65535" |}).
  - reflexivity.
  - reflexivity.
  - apply (bool_decide_unpack _). vm_compute. exact I.
  - discriminate.
  - reflexivity.
Defined.

(** [validate_url_safe] is [True] on acceptance, [False] on an
    [SSRFError], and lets the [ValueError] of an unreadable port through. *)
Lemma validate_url_safe_spec rt url domains timeout :
  let result := validate_url rt (URLValidator_init domains timeout) url in
  (validate_url_safe rt url domains timeout = inr true ↔ result = inr ())
  ∧ (validate_url_safe rt url domains timeout = inr false
     ↔ ∃ s, result = inl (SSRF s))
  ∧ (∀ e, validate_url_safe rt url domains timeout = inl e →
          ∃ msg, e = ValueError msg ∧ result = inl e).
Proof.
  simpl. unfold validate_url_safe.
  destruct (validate_url rt _ url) as [e | []] eqn:Hv.
  - destruct (validate_url_raises _ _ _ _ Hv)
      as [[s ->] | (parsed & msg & _ & _ & _ & _ & ->)].
    + split; [done |]. split; [split; eauto |]. done.
    + split; [done |]. split; [split; [done | intros [s Hs]; done] |].
      intros e [= <-]. eauto.
  - split; [done |]. split; [split; [done | intros [s Hs]; done] | done].
Qed.

(** ** Hostname resolution *)

Lemma resolved_ips_elem addr_info ip :
  ip ∈ resolved_ips addr_info
  ↔ ∃ fam, (fam, ip) ∈ addr_info ∧ fam ≠ AF_OTHER.
Proof.
  unfold resolved_ips. rewrite elem_of_remove_dups, list_elem_of_omap.
  split.
  - intros ([fam ip'] & Hin & Hf). exists fam.
    destruct fam; simpl in Hf; try discriminate;
      injection Hf as ->; (split; [done | discriminate]).
  - intros (fam & Hin & Hf). exists (fam, ip). split; [done |].
    by destruct fam.
Qed.

Lemma validate_resolved_ok rt hostname ips :
  validate_resolved rt hostname ips = inr ()
  ↔ ∀ ip, ip ∈ ips → _validate_ip_address rt ip = inr ().
Proof.
  induction ips as [| ip ips IH]; simpl.
  - split; [intros _ ip Hip; by apply elem_of_nil in Hip | done].
  - destruct (_validate_ip_address rt ip) as [e | []] eqn:Hv.
    + split.
      * intros H. by destruct e.
      * intros H. specialize (H ip (list_elem_of_here _ _)). congruence.
    + rewrite IH. split.
      * intros H ip' [-> | Hin]%elem_of_cons; auto.
      * intros H ip' Hin. apply H. by right.
Qed.

Lemma validate_resolved_rejects rt hostname ips e :
  validate_resolved rt hostname ips = inl e →
  ∃ ip s, ip ∈ ips ∧ _validate_ip_address rt ip = inl (SSRF s)
          ∧ e = SSRF (ResolvesToDangerous hostname s).
Proof.
  induction ips as [| ip ips IH]; simpl; [done |].
  destruct (_validate_ip_address rt ip) as [e' | []] eqn:Hv.
  - destruct (_validate_ip_address_raises_ssrf _ _ _ Hv) as [s ->].
    intros [= <-]. exists ip, s. split; [by left | done].
  - intros H. destruct (IH H) as (ip' & s & Hin & Hv' & ->).
    exists ip', s. split; [by right | done].
Qed.

(** X4. A hostname is accepted by [_validate_hostname_resolution] exactly
    when [getaddrinfo] answers and every IPv4 or IPv6 address of the
    answer passes [_validate_ip_address]: one unsafe address among the
    answers rejects the hostname. *)
Theorem hostname_accepted_iff_all_addresses_safe rt hostname :
  _validate_hostname_resolution rt hostname = inr ()
  ↔ ∃ addr_info,
      getaddrinfo rt hostname = inr addr_info
      ∧ ∀ fam ip, (fam, ip) ∈ addr_info → fam ≠ AF_OTHER →
                  _validate_ip_address rt ip = inr ().
Proof.
  unfold _validate_hostname_resolution.
  destruct (getaddrinfo rt hostname) as [e | addr_info]; simpl.
  - split; [by destruct e | intros (? & ? & _); done].
  - destruct (validate_resolved rt hostname (resolved_ips addr_info))
      as [e | []] eqn:Hv.
    + split; [by destruct e |]. intros (l & [= <-] & Hall).
      assert (validate_resolved rt hostname (resolved_ips addr_info)
              = inr ()) as Hok; [| congruence].
      apply validate_resolved_ok. intros ip Hip.
      apply resolved_ips_elem in Hip as (fam & Hin & Hf). eauto.
    + split; [intros _ | done]. exists addr_info. split; [done |].
      intros fam ip Hin Hf.
      apply (proj1 (validate_resolved_ok rt hostname _) Hv).
      apply resolved_ips_elem. eauto.
Qed.

Lemma hostname_accepted_iff_all_addresses_safe_witness :
  _validate_hostname_resolution Sample.the_runtime "example.com" = inr ().
Proof.
  apply (hostname_accepted_iff_all_addresses_safe Sample.the_runtime
           "example.com").
  exists [ (AF_INET, "93.184.216.34") ]. split; [reflexivity |].
  intros fam ip [[= -> ->] | Hin]%elem_of_cons _; [vm_compute; reflexivity |].
  by apply elem_of_nil in Hin.
Defined.

(** X5. A hostname that does not pass resolution is always refused with
    an [SSRFError]: a [gaierror] gives "Failed to resolve hostname"; an
    unsafe resolved address gives "Error validating hostname 'h':
    Hostname 'h' resolves to private/dangerous IP: ..." ending with the
    message of that address, because the [SSRFError] raised inside the
    [try] is caught again by its [except Exception]. *)
Theorem hostname_rejection_messages rt hostname :
  (∀ msg, getaddrinfo rt hostname = inl (GaiError msg) →
     _validate_hostname_resolution rt hostname
     = inl (SSRF (ResolutionFailed hostname msg)))
  ∧ (∀ addr_info fam ip,
       getaddrinfo rt hostname = inr addr_info →
       (fam, ip) ∈ addr_info → fam ≠ AF_OTHER →
       _validate_ip_address rt ip ≠ inr () →
       ∃ ip' s,
         ip' ∈ resolved_ips addr_info
         ∧ _validate_ip_address rt ip' = inl (SSRF s)
         ∧ _validate_hostname_resolution rt hostname
           = inl (SSRF (HostnameError hostname
                          ("Hostname " +:+ quote hostname
                           +:+ " resolves to private/dangerous IP: "
                           +:+ SSRFError_str rt s)))).
Proof.
  unfold _validate_hostname_resolution. split.
  - intros msg ->. done.
  - intros addr_info fam ip -> Hin Hf Hbad. simpl.
    destruct (validate_resolved rt hostname (resolved_ips addr_info))
      as [e | []] eqn:Hv.
    + destruct (validate_resolved_rejects _ _ _ _ Hv)
        as (ip' & s & Hin' & Hv' & ->).
      exists ip', s. done.
    + destruct Hbad.
      apply (proj1 (validate_resolved_ok rt hostname _) Hv).
      apply resolved_ips_elem. eauto.
Qed.

Lemma hostname_rejection_messages_witness :
  _validate_hostname_resolution Sample2.the_runtime "nowhere.invalid"
  = inl (SSRF (ResolutionFailed "nowhere.invalid"
                 "[Errno -2] Name or service not known"))
  ∧ _validate_hostname_resolution Sample2.the_runtime "rebind.example.com"
    = inl (SSRF (HostnameError "rebind.example.com"
                   ("Hostname 'rebind.example.com' resolves to "
                    +:+ "private/dangerous IP: "
                    +:+ "Localhost/loopback address not allowed: "
                    +:+ "127.0.0.1"))).
Proof.
  split.
  - apply (hostname_rejection_messages Sample2.the_runtime
             "nowhere.invalid"). reflexivity.
  - destruct (hostname_rejection_messages Sample2.the_runtime
                "rebind.example.com") as [_ H].
    destruct (H [ (AF_INET, "93.184.216.34"); (AF_INET, "127.0.0.1") ]
                AF_INET "127.0.0.1") as (ip' & s & _ & _ & Hv).
    + reflexivity.
    + right; left.
    + discriminate.
    + vm_compute. discriminate.
    + vm_compute. reflexivity.
Defined.

(** ** Classification of addresses *)

(** Two networks that disagree on a bit both netmasks cover share no
    address. *)
Lemma in_network_disjoint bits ip n1 n2 i :
  in_network bits ip n1 = true →
  Z.testbit (netmask bits n1.2) i = true →
  Z.testbit (netmask bits n2.2) i = true →
  Z.testbit n1.1 i ≠ Z.testbit n2.1 i →
  in_network bits ip n2 = false.
Proof.
  intros H1 Hm1 Hm2 Hne.
  destruct (in_network bits ip n2) eqn:H2; [| done].
  destruct Hne.
  by rewrite <- (in_network_testbit _ _ _ _ H1 Hm1),
             <- (in_network_testbit _ _ _ _ H2 Hm2).
Qed.

Ltac other_network H i :=
  rewrite (in_network_disjoint _ _ _ _ i H)
    by (vm_compute; first [reflexivity | discriminate]).

Ltac other_networks H :=
  repeat first
    [ other_network H 31 | other_network H 30 | other_network H 29
    | other_network H 28 | other_network H 27 | other_network H 26
    | other_network H 23
    | other_network H 127 | other_network H 121 | other_network H 120 ].

Ltac open_address_checks :=
  rewrite ?validate_ip_equation_1;
  unfold address_checks, is_loopback, is_link_local, is_private,
    is_private_v4, is_multicast, is_unspecified,
    IPv4Constants._loopback_network, IPv4Constants._linklocal_network,
    IPv4Constants._multicast_network, IPv4Constants._private_networks,
    IPv4Constants._private_networks_exceptions;
  cbn [existsb forallb].

(** X6. IPv4 literals by range: an address of 127.0.0.0/8 is refused as
    loopback, of 169.254.0.0/16 as link-local, of 10.0.0.0/8,
    172.16.0.0/12 or 192.168.0.0/16 as private, of 224.0.0.0/4 as
    multicast. *)
Theorem ipv4_ranges_refused a :
  (in_network 32 a (0x7f000000, 8) = true →
   validate_ip (IPv4Address a)
   = inl (SSRF (LoopbackAddress (IPv4Address a))))
  ∧ (in_network 32 a (0xa9fe0000, 16) = true →
     validate_ip (IPv4Address a)
     = inl (SSRF (LinkLocalAddress (IPv4Address a))))
  ∧ (in_network 32 a (0x0a000000, 8) = true
     ∨ in_network 32 a (0xac100000, 12) = true
     ∨ in_network 32 a (0xc0a80000, 16) = true →
     validate_ip (IPv4Address a)
     = inl (SSRF (PrivateAddress (IPv4Address a))))
  ∧ (in_network 32 a (0xe0000000, 4) = true →
     validate_ip (IPv4Address a)
     = inl (SSRF (MulticastAddress (IPv4Address a)))).
Proof.
  split; [| split; [| split]].
  - intros H. open_address_checks. by rewrite H.
  - intros H. open_address_checks. rewrite H. by other_networks H.
  - intros [H | [H | H]]; open_address_checks; rewrite H;
      other_networks H; by rewrite ?orb_true_r.
  - intros H. open_address_checks. rewrite H. by other_networks H.
Qed.

Lemma ipv4_ranges_refused_witness :
  validate_ip (IPv4Address 0xc0a80101)
  = inl (SSRF (PrivateAddress (IPv4Address 0xc0a80101)))
  ∧ validate_ip (IPv4Address 0xa9fea9fe)
    = inl (SSRF (LinkLocalAddress (IPv4Address 0xa9fea9fe))).
Proof.
  split.
  - apply (ipv4_ranges_refused 0xc0a80101). right; right.
    vm_compute; reflexivity.
  - apply (ipv4_ranges_refused 0xa9fea9fe). vm_compute; reflexivity.
Defined.

(** X7. An address is refused as loopback, link-local, private or
    multicast, never as unspecified or broadcast: [0.0.0.0], [::] and
    [255.255.255.255] are private for [ipaddress], and the check for
    private addresses comes first. *)
Theorem unspecified_and_broadcast_never_reported ip e :
  validate_ip ip = inl (SSRF e) →
  kind e = Loopback ∨ kind e = LinkLocal ∨ kind e = Private
  ∨ kind e = Multicast.
Proof.
  assert (∀ ip e, address_checks ip = inl (SSRF e) →
            kind e = Loopback ∨ kind e = LinkLocal ∨ kind e = Private
            ∨ kind e = Multicast) as Hchecks.
  { clear. intros ip e. unfold address_checks.
    destruct (is_loopback ip); [intros [= <-]; auto |].
    destruct (is_link_local ip); [intros [= <-]; auto |].
    destruct (is_private ip) eqn:Hp; [intros [= <-]; auto |].
    destruct (is_multicast ip); [intros [= <-]; tauto |].
    destruct ip as [a | a]; unfold is_unspecified.
    - destruct (Z.eqb_spec a IPv4Constants._unspecified_address) as [-> |].
      { vm_compute in Hp. discriminate. }
      destruct (Z.eqb_spec a 0xffffffff) as [-> |]; [| done].
      vm_compute in Hp. discriminate.
    - destruct (Z.eqb_spec a 0) as [-> |]; [| done].
      vm_compute in Hp. discriminate. }
  destruct ip as [a | a].
  - rewrite validate_ip_equation_1. apply Hchecks.
  - rewrite validate_ip_equation_2. unfold exc_bind.
    destruct (address_checks (IPv6Address a)) as [e' | []] eqn:Hc.
    + intros [= ->]. by eapply Hchecks.
    + destruct (ipv4_mapped a); [| discriminate].
      rewrite validate_ip_equation_1. apply Hchecks.
Qed.

Lemma unspecified_and_broadcast_never_reported_witness :
  validate_ip (IPv4Address 0)
  = inl (SSRF (PrivateAddress (IPv4Address 0)))
  ∧ validate_ip (IPv6Address 0)
    = inl (SSRF (PrivateAddress (IPv6Address 0)))
  ∧ validate_ip (IPv4Address 0xffffffff)
    = inl (SSRF (PrivateAddress (IPv4Address 0xffffffff)))
  ∧ (kind (PrivateAddress (IPv4Address 0)) = Loopback
     ∨ kind (PrivateAddress (IPv4Address 0)) = LinkLocal
     ∨ kind (PrivateAddress (IPv4Address 0)) = Private
     ∨ kind (PrivateAddress (IPv4Address 0)) = Multicast).
Proof.
  split; [vm_compute; reflexivity |].
  split; [vm_compute; reflexivity |].
  split; [vm_compute; reflexivity |].
  apply (unspecified_and_broadcast_never_reported (IPv4Address 0)).
  vm_compute; reflexivity.
Defined.

Lemma mapped_not_multicast a m :
  ipv4_mapped a = Some m → is_multicast (IPv6Address a) = false.
Proof.
  intros Hm. apply ipv4_mapped_shape in Hm.
  destruct (is_multicast (IPv6Address a)) eqn:Hl; [| done].
  apply (in_network_testbit _ _ _ 127) in Hl; [| vm_compute; reflexivity].
  replace (Z.testbit a 127) with (Z.testbit (Z.shiftr a 32) 95) in Hl
    by (rewrite Z.shiftr_spec by lia; reflexivity).
  rewrite Hm in Hl. vm_compute in Hl. discriminate.
Qed.

Lemma mapped_not_unspecified a m :
  ipv4_mapped a = Some m → is_unspecified (IPv6Address a) = false.
Proof.
  intros Hm. apply ipv4_mapped_shape in Hm. unfold is_unspecified.
  apply Z.eqb_neq. intros ->. discriminate.
Qed.

Lemma private_v4_refused m :
  is_private_v4 m = true → validate_ip (IPv4Address m) ≠ inr ().
Proof.
  intros Hp. rewrite validate_ip_equation_1. unfold address_checks.
  destruct (is_loopback _); [done |].
  destruct (is_link_local _); [done |].
  unfold is_private. by rewrite Hp.
Qed.

(** X8. The IPv4-mapped form of an address gets through exactly when the
    address itself does: [::ffff:a.b.c.d] is accepted if and only if
    [a.b.c.d] is. *)
Theorem mapped_accepted_iff_embedded_accepted a m :
  ipv4_mapped a = Some m →
  validate_ip (IPv6Address a) = inr ()
  ↔ validate_ip (IPv4Address m) = inr ().
Proof.
  intros Hm. rewrite validate_ip_equation_2. unfold address_checks at 1.
  rewrite (mapped_not_loopback a m Hm), (mapped_not_link_local a m Hm).
  unfold is_private at 1. rewrite Hm.
  destruct (is_private_v4 m) eqn:Hp.
  - unfold exc_bind. split; [done |]. intros H.
    by destruct (private_v4_refused m Hp).
  - rewrite (mapped_not_multicast a m Hm), (mapped_not_unspecified a m Hm).
    done.
Qed.

Lemma mapped_accepted_iff_embedded_accepted_witness :
  ipv4_mapped 0xffff08080808 = Some 0x08080808
  ∧ validate_ip (IPv4Address 0x08080808) = inr ()
  ∧ validate_ip (IPv6Address 0xffff08080808) = inr ().
Proof.
  split; [reflexivity |]. split; [vm_compute; reflexivity |].
  apply (mapped_accepted_iff_embedded_accepted 0xffff08080808 0x08080808);
    [reflexivity | vm_compute; reflexivity].
Defined.

(** ** Accepted addresses and accepted URLs *)

Ltac open_private :=
  unfold is_private, is_private_v4, is_loopback, is_link_local,
    is_multicast,
    IPv4Constants._loopback_network, IPv4Constants._linklocal_network,
    IPv4Constants._private_networks,
    IPv4Constants._private_networks_exceptions,
    IPv6Constants._linklocal_network, IPv6Constants._private_networks,
    IPv6Constants._private_networks_exceptions in *;
  cbn [existsb forallb] in *.

Lemma link_local_is_private_v4 a :
  is_link_local (IPv4Address a) = true → is_private_v4 a = true.
Proof.
  intros H. open_private. rewrite H. other_networks H.
  by rewrite ?orb_true_r.
Qed.

(** For [ipaddress] the loopback, link-local, unspecified and broadcast
    IPv4 addresses are all private. *)
Lemma not_private_v4 a :
  is_private_v4 a = false →
  is_loopback (IPv4Address a) = false
  ∧ is_link_local (IPv4Address a) = false
  ∧ is_unspecified (IPv4Address a) = false
  ∧ (a =? 0xffffffff) = false.
Proof.
  intros Hp. split_and!.
  - destruct (is_loopback (IPv4Address a)) eqn:H; [| done].
    by rewrite (loopback_is_private_v4 a H) in Hp.
  - destruct (is_link_local (IPv4Address a)) eqn:H; [| done].
    by rewrite (link_local_is_private_v4 a H) in Hp.
  - unfold is_unspecified, IPv4Constants._unspecified_address.
    destruct (Z.eqb_spec a 0) as [-> |]; [| done].
    vm_compute in Hp. discriminate.
  - destruct (Z.eqb_spec a 0xffffffff) as [-> |]; [| done].
    vm_compute in Hp. discriminate.
Qed.

Lemma link_local_is_private_v6 a :
  ipv4_mapped a = None →
  is_link_local (IPv6Address a) = true → is_private (IPv6Address a) = true.
Proof.
  intros Hm H. unfold is_private. rewrite Hm. open_private. rewrite H.
  other_networks H. by rewrite ?orb_true_r.
Qed.

(** So are [::1], [::] and the link-local IPv6 addresses. *)
Lemma not_private_v6 a :
  is_private (IPv6Address a) = false →
  is_loopback (IPv6Address a) = false
  ∧ is_link_local (IPv6Address a) = false
  ∧ is_unspecified (IPv6Address a) = false.
Proof.
  intros Hp. destruct (ipv4_mapped a) as [m |] eqn:Hm.
  { by rewrite (mapped_not_loopback a m Hm), (mapped_not_link_local a m Hm),
      (mapped_not_unspecified a m Hm). }
  split_and!.
  - simpl. destruct (Z.eqb_spec a 1) as [-> |]; [| done].
    vm_compute in Hp. discriminate.
  - destruct (is_link_local (IPv6Address a)) eqn:H; [| done].
    by rewrite (link_local_is_private_v6 a Hm H) in Hp.
  - simpl. destruct (Z.eqb_spec a 0) as [-> |]; [| done].
    vm_compute in Hp. discriminate.
Qed.

Lemma address_checks_ok ip :
  address_checks ip = inr ()
  ↔ is_private ip = false ∧ is_multicast ip = false.
Proof.
  unfold address_checks. split.
  - destruct (is_loopback ip); [done |].
    destruct (is_link_local ip); [done |].
    destruct (is_private ip); [done |].
    by destruct (is_multicast ip).
  - intros [Hp Hm]. rewrite Hp, Hm. destruct ip as [a | a].
    + destruct (not_private_v4 a Hp) as (-> & -> & -> & ->). done.
    + destruct (not_private_v6 a Hp) as (-> & -> & ->). done.
Qed.

Lemma validate_ip_passes_checks ip :
  validate_ip ip = inr () → address_checks ip = inr ().
Proof.
  destruct ip as [a | a].
  - by rewrite validate_ip_equation_1.
  - rewrite validate_ip_equation_2. unfold exc_bind.
    by destruct (address_checks (IPv6Address a)) as [e | []].
Qed.

Lemma accepted_address_public ip :
  validate_ip ip = inr () →
  is_loopback ip = false ∧ is_link_local ip = false
  ∧ is_private ip = false ∧ is_multicast ip = false.
Proof.
  intros [Hp Hm]%validate_ip_passes_checks%address_checks_ok.
  destruct ip as [a | a].
  - destruct (not_private_v4 a Hp) as (? & ? & _). done.
  - destruct (not_private_v6 a Hp) as (? & ? & _). done.
Qed.

(** X9. What decides about an address: it is accepted exactly when
    [ipaddress] calls it neither private nor multicast, and, for an
    IPv4-mapped IPv6 address, when the embedded IPv4 address is not
    multicast either. The loopback, link-local, unspecified and broadcast
    checks refuse nothing the private check would let through. *)
Theorem accepted_iff_not_private_nor_multicast ip :
  validate_ip ip = inr ()
  ↔ is_private ip = false ∧ is_multicast ip = false
    ∧ match ip with
      | IPv4Address _ => True
      | IPv6Address a =>
          match ipv4_mapped a with
          | Some m => is_multicast (IPv4Address m) = false
          | None => True
          end
      end.
Proof.
  destruct ip as [a | a].
  - rewrite validate_ip_equation_1, address_checks_ok. tauto.
  - rewrite validate_ip_equation_2. unfold exc_bind.
    pose proof (address_checks_ok (IPv6Address a)) as Hc.
    destruct (address_checks (IPv6Address a)) as [e | []].
    + split; [done |]. intros (Hp & Hm & _).
      by destruct (proj2 Hc (conj Hp Hm)).
    + destruct (proj1 Hc eq_refl) as [Hp Hm]. rewrite Hp, Hm.
      unfold is_private in Hp.
      destruct (ipv4_mapped a) as [m |]; [| tauto].
      rewrite validate_ip_equation_1, address_checks_ok. simpl. tauto.
Qed.

(** X10. What acceptance of a URL guarantees: the URL parsed with an
    allowed scheme, a hostname and a readable port that passes the port
    policy; the hostname passes the allowlist; and the address the
    hostname is, or else every IPv4 or IPv6 address [getaddrinfo] gave for
    it, is neither loopback, link-local, private nor multicast. *)
Theorem accepted_url_points_to_public_addresses rt self url :
  validate_url rt self url = inr () →
  ∃ parsed host p,
    urlparse rt url = inr parsed
    ∧ lower (scheme parsed) ∈ ALLOWED_SCHEMES
    ∧ hostname parsed = Some host ∧ host ≠ ""
    ∧ port parsed = inr p
    ∧ _validate_port p (scheme parsed) = inr ()
    ∧ _validate_domain_allowlist self host = inr ()
    ∧ match ip_address rt host with
      | inr ip =>
          is_loopback ip = false ∧ is_link_local ip = false
          ∧ is_private ip = false ∧ is_multicast ip = false
      | inl _ =>
          ∃ addr_info,
            getaddrinfo rt host = inr addr_info
            ∧ ∀ fam s, (fam, s) ∈ addr_info → fam ≠ AF_OTHER →
                ∃ ip, ip_address rt s = inr ip
                      ∧ is_loopback ip = false ∧ is_link_local ip = false
                      ∧ is_private ip = false ∧ is_multicast ip = false
      end.
Proof.
  unfold validate_url, _validate_scheme.
  destruct (String.eqb url "" || blank url); [done |].
  destruct (urlparse rt url) as [msg | parsed]; [done |].
  case_bool_decide as Hs; simpl; [| done].
  destruct (String.eqb_spec (netloc parsed) "") as [| Hn]; [done |].
  destruct (port parsed) as [msg | p] eqn:Hp; [done |].
  destruct (hostname parsed) as [[| c h] |] eqn:Hh; try done.
  destruct (_validate_port p (scheme parsed)) as [e1 | []] eqn:H1;
    simpl; [done |].
  destruct (_validate_domain_allowlist self _) as [e2 | []] eqn:H2;
    simpl; [done |].
  unfold _is_ip_address, _validate_ip_address.
  intros Hv. exists parsed, (String c h), p.
  split_and!; try done.
  destruct (ip_address rt (String c h)) as [msg | ip];
    [| by apply accepted_address_public].
  unfold _validate_hostname_resolution in Hv.
  destruct (getaddrinfo rt (String c h)) as [e | addr_info]; simpl in Hv;
    [by destruct e |].
  destruct (validate_resolved rt _ (resolved_ips addr_info))
    as [e | []] eqn:Hr; [by destruct e |].
  exists addr_info. split; [done |]. intros fam s Hin Hf.
  assert (_validate_ip_address rt s = inr ()) as Hok.
  { apply (proj1 (validate_resolved_ok rt _ _) Hr).
    apply resolved_ips_elem. eauto. }
  unfold _validate_ip_address in Hok.
  destruct (ip_address rt s) as [msg' | ip]; [done |].
  exists ip. split; [done |]. by apply accepted_address_public.
Qed.

Lemma accepted_url_points_to_public_addresses_witness :
  ∃ parsed host p,
    urlparse Sample.the_runtime "https://example.com/audio.wav" = inr parsed
    ∧ lower (scheme parsed) ∈ ALLOWED_SCHEMES
    ∧ hostname parsed = Some host ∧ host ≠ ""
    ∧ port parsed = inr p
    ∧ _validate_port p (scheme parsed) = inr ()
    ∧ _validate_domain_allowlist (URLValidator_init None 30) host = inr ()
    ∧ match ip_address Sample.the_runtime host with
      | inr ip =>
          is_loopback ip = false ∧ is_link_local ip = false
          ∧ is_private ip = false ∧ is_multicast ip = false
      | inl _ =>
          ∃ addr_info,
            getaddrinfo Sample.the_runtime host = inr addr_info
            ∧ ∀ fam s, (fam, s) ∈ addr_info → fam ≠ AF_OTHER →
                ∃ ip, ip_address Sample.the_runtime s = inr ip
                      ∧ is_loopback ip = false ∧ is_link_local ip = false
                      ∧ is_private ip = false ∧ is_multicast ip = false
      end.
Proof.
  apply (accepted_url_points_to_public_addresses Sample.the_runtime
           (URLValidator_init None 30) "https://example.com/audio.wav").
  vm_compute; reflexivity.
Defined.

(** ** What handling a request does to the world *)

Lemma is_str_true v s : is_str v s = true ↔ v = PStr s.
Proof.
  destruct v; simpl; try (split; [done | discriminate]).
  rewrite String.eqb_eq. split; [by intros -> | by intros [= ->]].
Qed.

Lemma request_get_str request key s :
  request_get request key PNone = PStr s ↔ request !! key = Some (PStr s).
Proof.
  unfold request_get. destruct (request !! key) as [v |].
  - split; [by intros -> | by intros [= ->]].
  - split; discriminate.
Qed.

Lemma _shutdown_frame env w :
  let w' := (_shutdown env w).2 in
  files w' = files w ∧ created w' = created w ∧ fetched w' = fetched w
  ∧ logs w' = logs w.
Proof.
  unfold _shutdown, _unload_model. run.
  destruct (model (daemon w)); simpl; [| done].
  destruct (torch_present env && cuda_available env); simpl; [| done].
  destruct (empty_cache env); done.
Qed.

(** Whatever [_shutdown] does, it leaves the daemon stopped and without
    model; it raises only the error of the release of the GPU cache. *)
Lemma _shutdown_stops env w :
  let result := _shutdown env w in
  running (daemon result.2) = false
  ∧ model (daemon result.2) = None
  ∧ (result.1 = inr () → shutdown_event (daemon result.2) = true)
  ∧ (model (daemon w) = None ∨ empty_cache env = None → result.1 = inr ())
  ∧ (∀ e, result.1 = inl e →
       empty_cache env = Some e
       ∧ shutdown_event (daemon result.2) = shutdown_event (daemon w)).
Proof.
  unfold _shutdown, _unload_model. run.
  destruct (model (daemon w)) eqn:Hmodel; simpl.
  - destruct (torch_present env && cuda_available env); simpl.
    + destruct (empty_cache env); simpl; split_and!; try done.
      * intros [? | ?]; done.
      * by intros e' [= <-].
    + split_and!; done.
  - rewrite Hmodel. split_and!; done.
Qed.

Lemma _create_secure_temp_file_effects env w :
  let temp_path := path_join (gettempdir env) (temp_name env) in
  match _create_secure_temp_file env w with
  | (inl _, w') =>
      files w' = files w ∧ created w' = created w ∧ fetched w' = fetched w
  | (inr p, w') =>
      p = temp_path ∧ (temp_path ∉ files w)
      ∧ files w' = {[ temp_path ]} ∪ files w
      ∧ created w' = temp_path :: created w ∧ fetched w' = fetched w
  end.
Proof.
  unfold _create_secure_temp_file.
  destruct (temp_writable env); simpl; [| done].
  case_bool_decide; simpl; [done |].
  destruct (os_open env _); simpl; done.
Qed.

Lemma fetch_and_transcribe_effects env url language wts temp_path w :
  let w' := (fetch_and_transcribe env url language wts temp_path w).2 in
  temp_path ∈ files w →
  files w' = files w ∧ created w' = created w
  ∧ fetched w' = url :: fetched w.
Proof.
  unfold fetch_and_transcribe; simpl. intros Hin.
  assert ({[ temp_path ]} ∪ files w = files w) as Hsame.
  { apply set_eq. intros x. rewrite elem_of_union, elem_of_singleton.
    split; [intros [-> | ?]; done | by right]. }
  destruct (download env _ _); simpl; [done |].
  destruct (model (daemon w)); simpl; by rewrite Hsame.
Qed.

Lemma cleanup_effects env temp_path w :
  let w' := cleanup env temp_path w in
  temp_path ∈ files w →
  created w' = created w ∧ fetched w' = fetched w
  ∧ files w' = match os_unlink env temp_path with
               | None => files w ∖ {[ temp_path ]}
               | Some _ => files w
               end.
Proof.
  simpl. intros Hin. unfold cleanup. rewrite bool_decide_eq_true_2 by done.
  destruct (os_unlink env temp_path); done.
Qed.

(** A call of [transcribe_body] either leaves files and URLs alone, or
    creates the temporary file, opens the validated URL and cleans up. *)
Lemma transcribe_body_effects env request w :
  let result := transcribe_body env request w in
  let temp_path := path_join (gettempdir env) (temp_name env) in
  (files result.2 = files w ∧ created result.2 = created w
   ∧ fetched result.2 = fetched w)
  ∨ (∃ u, request_get request "url" PNone = PStr u
          ∧ validate_url (runtime env) (url_validator (daemon w)) u = inr ()
          ∧ (temp_path ∉ files w)
          ∧ created result.2 = temp_path :: created w
          ∧ fetched result.2 = u :: fetched w
          ∧ files result.2 = match os_unlink env temp_path with
                             | None => files w
                             | Some _ => {[ temp_path ]} ∪ files w
                             end).
Proof.
  unfold transcribe_body. run.
  pose proof (_load_model_frame env
                (set_daemon (with_last_activity (time env)) w)) as Hload.
  simpl in Hload. destruct Hload as (_ & Hval & Hfiles & Hcreated & Hfetched).
  destruct (_load_model env _) as [[e1 | []] w1]; simpl in *; [by left |].
  destruct (truthy _); simpl; [| by left].
  destruct (request_get request "url" PNone) as [| | | u | |]; simpl;
    try by left.
  rewrite Hval.
  destruct (validate_url _ _ u) as [[] | []] eqn:Hv; simpl; try by left.
  pose proof (_create_secure_temp_file_effects env
                (add_log INFO ("URL validation passed for: " +:+ u) w1)) as Hc.
  destruct (_create_secure_temp_file env _) as [[e | p] w2]; simpl in *.
  { left. destruct Hc as (-> & -> & ->). done. }
  destruct Hc as (-> & Hnew & Hf2 & Hc2 & Hu2).
  assert (path_join (gettempdir env) (temp_name env) ∈ files w2) as Hin.
  { rewrite Hf2. apply elem_of_union_l. by apply elem_of_singleton. }
  pose proof (fetch_and_transcribe_effects env u
                (request_get request "language" (PStr "auto"))
                (request_get request "word_timestamps" (PBool true))
                _ w2 Hin) as (Hf3 & Hc3 & Hu3).
  destruct (fetch_and_transcribe env u _ _ _ w2) as [r w3]; simpl in *.
  assert (path_join (gettempdir env) (temp_name env) ∈ files w3) as Hin3
    by (by rewrite Hf3).
  pose proof (cleanup_effects env _ w3 Hin3) as (Hc4 & Hu4 & Hf4).
  right. exists u.
  assert (files (cleanup env (path_join (gettempdir env) (temp_name env)) w3)
          = match os_unlink env (path_join (gettempdir env) (temp_name env))
            with
            | None => files w
            | Some _ =>
                {[ path_join (gettempdir env) (temp_name env) ]} ∪ files w
            end) as Hfinal.
  { rewrite Hf4, Hf3, Hf2. simpl. rewrite Hfiles.
    destruct (os_unlink env _); [done |].
    apply set_eq. intros x.
    rewrite elem_of_difference, elem_of_union, elem_of_singleton.
    rewrite Hfiles in Hnew. simpl in Hnew.
    split; [tauto |]. intros Hx. split; [by right | by intros ->]. }
  rewrite Hfiles in Hnew.
  destruct r as [e | result]; simpl;
    rewrite Hc4, Hc3, Hc2, Hu4, Hu3, Hu2, Hfinal; simpl;
    rewrite Hcreated, Hfetched; done.
Qed.

Lemma handle_request_effects env request w :
  let result := handle_request env request w in
  let temp_path := path_join (gettempdir env) (temp_name env) in
  (files result.2 = files w ∧ created result.2 = created w
   ∧ fetched result.2 = fetched w)
  ∨ (∃ u, request !! "action" = Some (PStr "transcribe")
          ∧ request !! "url" = Some (PStr u)
          ∧ validate_url (runtime env) (url_validator (daemon w)) u = inr ()
          ∧ (temp_path ∉ files w)
          ∧ created result.2 = temp_path :: created w
          ∧ fetched result.2 = u :: fetched w
          ∧ files result.2 = match os_unlink env temp_path with
                             | None => files w
                             | Some _ => {[ temp_path ]} ∪ files w
                             end).
Proof.
  simpl. rewrite handle_request_world. unfold dispatch.
  destruct (is_str _ "transcribe") eqn:Ha.
  - apply is_str_true, request_get_str in Ha.
    unfold transcribe_audio.
    pose proof (transcribe_body_effects env request w) as H. simpl in H.
    destruct (transcribe_body env request w) as [[e | response] w'];
      simpl in *;
      (destruct H as [H | (u & Hu%request_get_str & H)];
       [by left | right; by exists u]).
  - left. destruct (is_str _ "ping"); simpl; [done |].
    destruct (is_str _ "status"); simpl; [done |].
    destruct (is_str _ "shutdown"); simpl; [| done].
    run. pose proof (_shutdown_frame env w) as H. simpl in H.
    destruct (_shutdown env w) as [[e | []] w']; simpl in *; tauto.
Qed.


(** X12. The only file a request touches is its own temporary file,
    [whisper_<token>.wav] in the temporary directory, and it never
    overwrites one: either no file is created and the files are as before,
    or that path did not exist, was created, and is gone again when the
    request returns, unless its deletion failed, in which case it is the
    one file left behind. *)
Theorem request_touches_only_its_temp_file env request w :
  let result := handle_request env request w in
  let temp_path := path_join (gettempdir env) (temp_name env) in
  (created result.2 = created w ∧ files result.2 = files w)
  ∨ ((temp_path ∉ files w)
     ∧ created result.2 = temp_path :: created w
     ∧ files result.2 = match os_unlink env temp_path with
                        | None => files w
                        | Some _ => {[ temp_path ]} ∪ files w
                        end).
Proof.
  simpl.
  destruct (handle_request_effects env request w)
    as [(? & ? & _) | (u & _ & _ & _ & ? & ? & _ & ?)]; [by left |].
  by right.
Qed.

(** ** Shutting down *)

(** X13. [_shutdown] can be called again: whatever a first call did, even
    one that raised from the release of the GPU cache, the daemon is
    stopped and without model, and a second call, on any machine, returns
    normally and sets the shutdown event. *)
Theorem shutdown_can_be_repeated env env' w :
  let w1 := (_shutdown env w).2 in
  let result := _shutdown env' w1 in
  running (daemon w1) = false ∧ model (daemon w1) = None
  ∧ result.1 = inr ()
  ∧ running (daemon result.2) = false ∧ model (daemon result.2) = None
  ∧ shutdown_event (daemon result.2) = true.
Proof.
  simpl.
  destruct (_shutdown_stops env w) as (Hr & Hm & _).
  destruct (_shutdown_stops env' (_shutdown env w).2)
    as (Hr' & Hm' & He' & Hok & _).
  split_and!; try done; auto.
Qed.

Lemma _load_model_daemon env w :
  let result := _load_model env w in
  running (daemon result.2) = running (daemon w)
  ∧ shutdown_event (daemon result.2) = shutdown_event (daemon w)
  ∧ ∀ m,
      match model (daemon w) with
      | Some m' => m' = m
      | None =>
          load_model env (model_name (daemon w)) (device (daemon w)) = inr m
      end →
      result.1 = inr () ∧ model (daemon result.2) = Some m.
Proof.
  unfold _load_model. destruct (model (daemon w)) as [m' |] eqn:Hm; simpl.
  - split_and!; try done. by intros m ->.
  - destruct (load_model env _ _); simpl; split_and!; try done.
    by intros ? [= ->].
Qed.

(** Past the loading of the model, [transcribe_body] changes nothing of
    the daemon's fields. *)
Lemma transcribe_body_daemon env request w :
  daemon (transcribe_body env request w).2
  = daemon (_load_model env
              (set_daemon (with_last_activity (time env)) w)).2.
Proof.
  unfold transcribe_body. run.
  destruct (_load_model env _) as [[e | []] w1]; simpl in *; [done |].
  destruct (truthy _); simpl; [| done].
  destruct (request_get request "url" PNone) as [| | | u | |]; simpl; try done.
  destruct (validate_url _ _ u) as [[] | []]; simpl; try done.
  pose proof (_create_secure_temp_file_daemon env
                (add_log INFO ("URL validation passed for: " +:+ u) w1)) as Hc.
  destruct (_create_secure_temp_file env _) as [[e | temp_path] w2];
    simpl in *; [by rewrite Hc |].
  pose proof (fetch_and_transcribe_daemon env u
                (request_get request "language" (PStr "auto"))
                (request_get request "word_timestamps" (PBool true))
                temp_path w2) as Hf.
  destruct (fetch_and_transcribe env u _ _ temp_path w2) as [[e | result] w3];
    simpl in *; by rewrite cleanup_daemon, Hf, Hc.
Qed.

(** X14. Only a shutdown request stops the daemon, and nothing starts
    it again: after a request whose action is "shutdown" the daemon is not
    running, also when the shutdown raised; after any other request it is
    running exactly if it was. *)
Theorem only_shutdown_stops_the_daemon env request w :
  let result := handle_request env request w in
  running (daemon result.2)
  = if is_str (request_get request "action" PNone) "shutdown"
    then false else running (daemon w).
Proof.
  simpl. rewrite handle_request_world. unfold dispatch.
  destruct (is_str _ "transcribe") eqn:Ha.
  { apply is_str_true in Ha. rewrite Ha. simpl.
    unfold transcribe_audio.
    pose proof (transcribe_body_daemon env request w) as H.
    destruct (_load_model_daemon env
                (set_daemon (with_last_activity (time env)) w))
      as (Hrun & _).
    destruct (transcribe_body env request w) as [[e | response] w'];
      simpl in *; by rewrite H, Hrun. }
  destruct (is_str _ "ping") eqn:Hp.
  { apply is_str_true in Hp. rewrite Hp. simpl. done. }
  destruct (is_str _ "status") eqn:Hs.
  { apply is_str_true in Hs. rewrite Hs. simpl. done. }
  destruct (is_str _ "shutdown"); simpl; [| done].
  run. destruct (_shutdown_stops env w) as (Hr & _).
  destruct (_shutdown env w) as [[e | []] w']; done.
Qed.

(** X15. Requests that are neither [transcribe] nor [shutdown], that is
    [ping], [status] and every unknown or missing action, change nothing:
    not the daemon, not the files, not the log. *)
Theorem other_actions_change_nothing env request w :
  is_str (request_get request "action" PNone) "transcribe" = false →
  is_str (request_get request "action" PNone) "shutdown" = false →
  (handle_request env request w).2 = w.
Proof.
  intros Ht Hs. rewrite handle_request_world. unfold dispatch.
  rewrite Ht, Hs.
  destruct (is_str _ "ping"); [done |].
  by destruct (is_str _ "status").
Qed.

Lemma other_actions_change_nothing_witness :
  (handle_request (Sample.env 500 false false false)
     (Sample.request [ ("id", PNum 1); ("action", PStr "status") ])
     Sample.world).2
  = Sample.world
  ∧ (handle_request (Sample.env 500 false false false)
       (Sample.request [ ("id", PNum 2) ]) Sample.world).2
    = Sample.world.
Proof.
  split;
    apply (other_actions_change_nothing (Sample.env 500 false false false));
    reflexivity.
Defined.

(** ** The loop of [run] *)

Lemma lstrip_blank s : lstrip s = "" ↔ blank s = true.
Proof.
  induction s as [| c r IH]; simpl; [done |].
  destruct (isspace c); simpl; [done |]. split; discriminate.
Qed.

Lemma lstrip_head s :
  lstrip s = "" ∨ ∃ c r, lstrip s = String c r ∧ isspace c = false.
Proof.
  induction s as [| c r IH]; simpl; [by left |].
  destruct (isspace c) eqn:Hc; [done |]. right. by exists c, r.
Qed.

Lemma blank_app s t : blank (s +:+ t) = blank s && blank t.
Proof.
  induction s as [| c r IH]; simpl; [done |].
  by rewrite IH, andb_assoc.
Qed.

Lemma blank_rev s : blank (String.rev s) = blank s.
Proof.
  induction s as [| c r IH]; [done |].
  rewrite string_rev_cons, blank_app, IH. simpl.
  by rewrite andb_true_r, andb_comm.
Qed.

Lemma string_rev_eq_empty s : String.rev s = "" ↔ s = "".
Proof.
  split; [| by intros ->]. intros H.
  by rewrite <- (string_rev_involutive s), H.
Qed.

(** [blank s] is [not s.strip()]. *)
Lemma strip_blank s : strip s = "" ↔ blank s = true.
Proof.
  unfold strip. rewrite string_rev_eq_empty, lstrip_blank, blank_rev. split.
  - intros H. apply lstrip_blank.
    destruct (lstrip_head s) as [Heq | (c & r & Heq & Hc)]; [done |].
    rewrite Heq in H. simpl in H. by rewrite Hc in H.
  - intros H. apply lstrip_blank in H. by rewrite H.
Qed.

Lemma run_loop_stopped json_loads input w :
  running (daemon w) = false → run_loop json_loads input w = ([], w).
Proof.
  intros H. destruct input as [| [env line] rest]; simpl; [done |].
  by rewrite H.
Qed.

(** The turn of the loop on a line that is read while the daemon runs and
    holds more than white space. *)
Lemma run_loop_line json_loads env line rest w :
  running (daemon w) = true → blank line = false →
  run_loop json_loads ((env, line) :: rest) w
  = match json_loads (strip line) with
    | inl e =>
        (invalid_json_response e :: (run_loop json_loads rest w).1,
         (run_loop json_loads rest w).2)
    | inr request =>
        let result := handle_loaded env request w in
        ((match result.1 with
          | inr response => response
          | inl e => failure_response (runtime env) e
          end) :: (run_loop json_loads rest result.2).1,
         (run_loop json_loads rest result.2).2)
    end.
Proof.
  intros Hrun Hline. cbn [run_loop]. rewrite Hrun. cbn [negb].
  destruct (String.eqb_spec line "") as [-> |]; [done |].
  destruct (String.eqb_spec (strip line) "") as [He |].
  { apply strip_blank in He. congruence. }
  destruct (json_loads (strip line)) as [e | request].
  - by destruct (run_loop json_loads rest w).
  - destruct (handle_loaded env request w) as [r w1]. simpl.
    by destruct (run_loop json_loads rest w1).
Qed.

(** X16. Nothing is handled after a shutdown request: the loop answers
    the request and ends, whatever lines follow and even when the release
    of the GPU cache raised; the daemon is then stopped and without
    model. *)
Theorem shutdown_request_ends_the_loop json_loads env line items rest w :
  running (daemon w) = true →
  blank line = false →
  json_loads (strip line) = inr (PDict items) →
  dict_of_items items !! "action" = Some (PStr "shutdown") →
  let result := handle_request env (dict_of_items items) w in
  run_loop json_loads ((env, line) :: rest) w = ([ result.1 ], result.2)
  ∧ running (daemon result.2) = false
  ∧ model (daemon result.2) = None.
Proof.
  intros Hrun Hline Hjson Ha. cbv zeta.
  assert (running (daemon (handle_request env (dict_of_items items) w).2)
          = false
          ∧ model (daemon (handle_request env (dict_of_items items) w).2)
            = None) as [Hstop Hmodel].
  { rewrite handle_request_world. unfold dispatch, request_get.
    rewrite Ha. simpl. run.
    destruct (_shutdown_stops env w) as (Hr & Hm & _).
    destruct (_shutdown env w) as [[e | []] w']; done. }
  split; [| done].
  rewrite run_loop_line, Hjson by done. unfold handle_loaded. simpl.
  destruct (handle_request env (dict_of_items items) w) as [response w1].
  simpl in *. by rewrite run_loop_stopped.
Qed.

Lemma shutdown_request_ends_the_loop_witness :
  let env := Sample.env 500 false false false in
  let result :=
    run_loop Sample2.the_json_loads
      [ (env, Sample2.shutdown_line); (env, Sample2.shutdown_line) ]
      Sample.world in
  length result.1 = 1%nat ∧ running (daemon result.2) = false.
Proof.
  cbv zeta.
  destruct (shutdown_request_ends_the_loop Sample2.the_json_loads
              (Sample.env 500 false false false) Sample2.shutdown_line
              [ ("id", PNum 7); ("action", PStr "shutdown") ]
              [ (Sample.env 500 false false false, Sample2.shutdown_line) ]
              Sample.world) as (-> & Hr & _);
    [vm_compute; reflexivity .. |].
  split; [reflexivity | exact Hr].
Defined.

(** X17. Lines that are no requests. A line of white space is skipped
    without an answer. A line that is not JSON, or is JSON but no object,
    is answered with a failure that carries no id; the daemon is left as
    it was and goes on with the next line. *)
Theorem lines_that_are_no_requests json_loads env line rest w :
  running (daemon w) = true → line ≠ "" →
  (blank line = true →
   run_loop json_loads ((env, line) :: rest) w
   = run_loop json_loads rest w)
  ∧ (blank line = false →
     (∀ items, json_loads (strip line) ≠ inr (PDict items)) →
     ∃ response,
       response !! "id" = None
       ∧ response !! "success" = Some (PBool false)
       ∧ run_loop json_loads ((env, line) :: rest) w
         = (response :: (run_loop json_loads rest w).1,
            (run_loop json_loads rest w).2)).
Proof.
  intros Hrun Hne. split.
  - intros Hb. cbn [run_loop]. rewrite Hrun. cbn [negb].
    destruct (String.eqb_spec line ""); [done |].
    by rewrite (proj2 (strip_blank line) Hb).
  - intros Hb Hno. rewrite run_loop_line by done.
    destruct (json_loads (strip line)) as [e | request].
    + exists (invalid_json_response e). split_and!; [| | done].
      * unfold invalid_json_response.
        by rewrite !lookup_insert_ne, lookup_empty by done.
      * apply lookup_insert_eq.
    + destruct request as [| b | n | s | l | items];
        try (by destruct (Hno items)); simpl;
        (eexists; split_and!; [| | reflexivity];
         [ unfold failure_response;
           by rewrite !lookup_insert_ne, lookup_empty by done
         | apply lookup_insert_eq ]).
Qed.

Lemma lines_that_are_no_requests_witness :
  let env := Sample.env 500 false false false in
  ∃ response,
    response !! "id" = None
    ∧ response !! "success" = Some (PBool false)
    ∧ run_loop Sample2.the_json_loads [ (env, Sample2.list_line) ]
        Sample.world
      = (response :: (run_loop Sample2.the_json_loads [] Sample.world).1,
         (run_loop Sample2.the_json_loads [] Sample.world).2).
Proof.
  cbv zeta.
  apply (lines_that_are_no_requests Sample2.the_json_loads
           (Sample.env 500 false false false) Sample2.list_line []
           Sample.world);
    [reflexivity | discriminate | reflexivity |].
  intros items. vm_compute. discriminate.
Defined.


(** ** The idle checker over its wake-ups *)

(** X19. Over any number of wake-ups the idle checker does nothing until
    the first one at which [now - last_activity] exceeds [idle_timeout];
    there it does what [_shutdown] does, and no later wake-up is looked
    at. *)
Theorem idle_checker_acts_at_first_expiry env quiet now later w :
  running (daemon w) = true →
  Forall (λ t, t - last_activity (daemon w) ≤ idle_timeout (daemon w))
    quiet →
  _idle_checker env quiet w = (inr (), w)
  ∧ (idle_timeout (daemon w) < now - last_activity (daemon w) →
     _idle_checker env (quiet ++ now :: later) w = _shutdown env w).
Proof.
  intros Hrun Hquiet.
  induction Hquiet as [| t quiet Ht Hquiet IH]; simpl.
  - split; [done |]. intros Hlt. rewrite Hrun. unfold idle_check.
    rewrite (proj2 (Z.ltb_lt _ _) Hlt). run.
    by destruct (_shutdown env w) as [[e | []] w'].
  - rewrite Hrun. unfold idle_check.
    by rewrite (proj2 (Z.ltb_ge _ _) Ht).
Qed.

Lemma idle_checker_acts_at_first_expiry_witness :
  let env := Sample.env 401 false false false in
  _idle_checker env [ 160; 220; 400 ] Sample.world = (inr (), Sample.world)
  ∧ _idle_checker env ([ 160; 220; 400 ] ++ 401 :: [ 461 ]) Sample.world
    = _shutdown env Sample.world.
Proof.
  cbv zeta.
  destruct (idle_checker_acts_at_first_expiry
              (Sample.env 401 false false false) [ 160; 220; 400 ] 401
              [ 461 ] Sample.world) as [H1 H2].
  - reflexivity.
  - repeat constructor; vm_compute; discriminate.
  - split; [exact H1 |]. apply H2. reflexivity.
Defined.

(** ** [transcribe_audio] *)

(** X20. A [transcribe] request loads the model before anything of the
    request is read, also on a daemon that was shut down, which it does
    not set running again. So even a request without URL leaves the model
    loaded; it is answered with "Missing 'url' parameter", and neither a
    file nor a URL is touched. *)
Theorem transcribe_loads_model_first env request w m :
  request !! "action" = Some (PStr "transcribe") →
  match model (daemon w) with
  | Some m' => m' = m
  | None => load_model env (model_name (daemon w)) (device (daemon w)) = inr m
  end →
  let result := handle_request env request w in
  model (daemon result.2) = Some m
  ∧ running (daemon result.2) = running (daemon w)
  ∧ (truthy (request_get request "url" PNone) = false →
     result.1 !! "success" = Some (PBool false)
     ∧ result.1 !! "error" = Some (PStr "Missing 'url' parameter")
     ∧ files result.2 = files w ∧ created result.2 = created w
     ∧ fetched result.2 = fetched w).
Proof.
  intros Ha Hm. simpl.
  destruct (_load_model_daemon env
              (set_daemon (with_last_activity (time env)) w))
    as (Hrun & _ & Hload).
  destruct (Hload m Hm) as [Hok Hmodel]. clear Hload.
  pose proof (_load_model_frame env
                (set_daemon (with_last_activity (time env)) w)) as Hframe.
  simpl in Hframe. destruct Hframe as (_ & _ & Hfiles & Hcreated & Hfetched).
  pose proof (transcribe_body_daemon env request w) as Hd.
  apply request_get_str in Ha.
  unfold handle_request, dispatch. rewrite Ha. simpl.
  unfold transcribe_audio.
  split_and!.
  - destruct (transcribe_body env request w) as [[e | response] w'];
      simpl in *; by rewrite Hd.
  - destruct (transcribe_body env request w) as [[e | response] w'];
      simpl in *; by rewrite Hd.
  - intros Hurl. unfold transcribe_body. run.
    destruct (_load_model env _) as [[e | []] w1]; simpl in *; [done |].
    rewrite Hurl. simpl. done.
Qed.

Lemma transcribe_loads_model_first_witness :
  let env := Sample.env 500 false false false in
  let request := Sample.request [ ("action", PStr "transcribe") ] in
  let stopped := (_shutdown env Sample.world).2 in
  let result := handle_request env request stopped in
  model (daemon stopped) = None
  ∧ model (daemon result.2) = Some (WhisperModel "base" "cuda")
  ∧ running (daemon result.2) = false
  ∧ result.1 !! "error" = Some (PStr "Missing 'url' parameter").
Proof.
  cbv zeta. split; [reflexivity |].
  destruct (transcribe_loads_model_first
              (Sample.env 500 false false false)
              (Sample.request [ ("action", PStr "transcribe") ])
              (_shutdown (Sample.env 500 false false false) Sample.world).2
              (WhisperModel "base" "cuda"))
    as (Hm & Hr & Hu); [vm_compute; reflexivity .. |].
  split; [exact Hm |]. split; [exact Hr |].
  apply Hu. reflexivity.
Defined.



(** ** Construction *)


(** ** [validate_url_safe] *)

(** X23. [validate_url_safe] returns [True] exactly when [validate_url]
    accepts the URL and [False] exactly when it raises an [SSRFError]. It
    is not total: on a URL with an allowed scheme whose port cannot be
    read it raises the parser's [ValueError], and it raises nothing
    else. *)
Theorem validate_url_safe_is_validate_url rt url domains timeout :
  let result := validate_url rt (URLValidator_init domains timeout) url in
  (validate_url_safe rt url domains timeout = inr true ↔ result = inr ())
  ∧ (validate_url_safe rt url domains timeout = inr false
     ↔ ∃ s, result = inl (SSRF s))
  ∧ (∀ e, validate_url_safe rt url domains timeout = inl e →
       ∃ msg, e = ValueError msg)
  ∧ (∀ parsed msg,
       String.eqb url "" || blank url = false →
       urlparse rt url = inr parsed →
       lower (scheme parsed) ∈ ALLOWED_SCHEMES →
       netloc parsed ≠ "" →
       port parsed = inl msg →
       validate_url_safe rt url domains timeout = inl (ValueError msg)).
Proof.
  simpl.
  destruct (validate_url_safe_spec rt url domains timeout) as (H1 & H2 & H3).
  split_and!; try done.
  - intros e He. destruct (H3 e He) as (msg & -> & _). eauto.
  - intros parsed msg Hurl Hparse Hscheme Hnetloc Hport.
    unfold validate_url_safe.
    by rewrite (validate_url_unreadable_port rt _ url parsed msg).
Qed.

Lemma validate_url_safe_is_validate_url_witness :
  validate_url_safe Sample2.the_runtime "http://example.com:99999/x" None 10
  = inl (ValueError "Port out of range 0-65535").
Proof.
  destruct (validate_url_safe_is_validate_url Sample2.the_runtime
              "http://example.com:99999/x" None 10) as (_ & _ & _ & H).
  apply (H {| scheme := "http"; netloc := "example.com:99999";
              hostname := Some "example.com";
              port := inl "Port out of range 0-65535" |}).
  - reflexivity.
  - reflexivity.
  - apply (bool_decide_unpack _). vm_compute. exact I.
  - discriminate.
  - reflexivity.
Defined.
